(** * Tag service and its cache invalidation (features/tags/tags.service.ts)

    A shallow embedding of the tag service: the service functions are
    state-passing computations over a request context that carries the
    relational store, the key-value cache with its namespace version
    counters, a log of the calls issued to the cache and the CDN, and the
    promises handed to [executionCtx.waitUntil].

    The service is embedded from its source, twice where the claims need
    it: with calls to the cache that always succeed, and, for the mutation
    endpoints and the invalidation helper, with calls that can fail and
    promises that can reject.  Its collaborators
    ([TagRepo], [CacheService], [purgeCDNCache], the cache-key tables) live
    in other files of the repository; they are modelled from the design
    document, each under a comment that says so. *)

From Stdlib Require Import ZArith NArith String List Lia.
From stdpp Require Import base option strings gmap list sorting pretty.

Local Open Scope string_scope.
Local Open Scope Z_scope.
Local Open Scope list_scope.

(** ** A state monad for the awaited calls

    Every [await]ed call is run to completion in program order.  The
    promises collected for [Promise.all] are run in the order in which the
    source starts them: they act on pairwise different counters and on
    keys that are only deleted, so this is one of their interleavings and
    all of them end in the same state. *)

Definition M (S A : Type) : Type := S -> A * S.

Global Instance M_ret {S} : MRet (M S) := fun A (a : A) s => (a, s).

Global Instance M_bind {S} : MBind (M S) :=
  fun A B (k : A -> M S B) (m : M S A) s => let (a, s') := m s in k a s'.

Fixpoint forEach {S A} (l : list A) (body : A -> M S unit) : M S unit :=
  match l with
  | [] => mret tt
  | x :: l' => body x ;; forEach l' body
  end.

(** ** Schemas (features/tags/tags.schema.ts, features/posts/posts.schema.ts) *)

Module Schema.

(** A cached payload: the JSON document held under a key. *)
#[local] Unset Elimination Schemes.
Inductive Json : Type :=
| JNull
| JNum (n : Z)
| JStr (s : string)
| JArr (items : list Json)
| JObj (fields : list (string * Json)).
#[local] Set Elimination Schemes.

Record Tag := mkTag { tag_id : Z; tag_name : string; tag_createdAt : Z }.

Record TagWithCount := mkTagWithCount {
  twc_id : Z; twc_name : string; twc_createdAt : Z; twc_postCount : Z }.

(** [{ id, slug }] of a post, as passed to the invalidation helper. *)
Record PostRef := mkPostRef { ref_id : Z; ref_slug : string }.

Inductive SortBy := ByName | ByCreatedAt | ByPostCount.
Inductive SortDir := Asc | Desc.

(** The columns a plain tag list can be ordered by ([getAllTags]). *)
Inductive TagSortBy := TagByName | TagByCreatedAt.

Record GetTagsInput := mkGetTagsInput {
  in_sortBy : option SortBy;
  in_sortDir : option SortDir;
  in_withCount : option bool;
  in_publicOnly : option bool }.

Record CreateTagInput := mkCreateTagInput { create_name : string }.

(** [data.data] of an update: the optional new name. *)
Record UpdateTagData := mkUpdateTagData { upd_name : option string }.
Record UpdateTagInput := mkUpdateTagInput { upd_id : Z; upd_data : UpdateTagData }.
Record DeleteTagInput := mkDeleteTagInput { del_id : Z }.
Record SetPostTagsInput := mkSetPostTagsInput { spt_postId : Z; spt_tagIds : list Z }.
Record GetTagsByPostIdInput := mkGetTagsByPostIdInput { gtp_postId : Z }.

(** The [reason] of an error outcome: a union of string literals. *)
Inductive Reason := TAG_NAME_ALREADY_EXISTS | TAG_NOT_FOUND.

(** [ok(data)] and [err(error)] of lib/error. *)
Inductive Result (A : Type) : Type :=
| ok (data : A)
| err (error : Reason).
Arguments ok {A} data.
Arguments err {A} error.

(** Modelled from the spec: TAGS_CACHE_KEYS.publicList, declared in
    tags.schema.ts; "a fixed constant key for the single aggregate public
    list entry". *)
Definition TAGS_CACHE_KEYS_publicList : string := "tags:public:list".

(** Modelled from the spec: POSTS_CACHE_KEYS.detail, declared in
    posts.schema.ts; version-scoped keys are named
    "{namespace}:v{version}:{discriminator}". *)
Definition POSTS_CACHE_KEYS_detail (version : N) (slug : string) : string :=
  "posts:detail" +:+ ":v" +:+ pretty version +:+ ":" +:+ slug.

(** Modelled from the spec: TagWithCountSchema, declared in tags.schema.ts.
    A schema is a validator of cached payloads; [encode] is the payload
    written for a value. *)
Fixpoint field (k : string) (fs : list (string * Json)) : option Json :=
  match fs with
  | [] => None
  | (k', v) :: fs' => if String.eqb k k' then Some v else field k fs'
  end.

Definition asNum (j : Json) : option Z :=
  match j with JNum n => Some n | _ => None end.

Definition asStr (j : Json) : option string :=
  match j with JStr s => Some s | _ => None end.

Definition TagWithCount_encode (t : TagWithCount) : Json :=
  JObj [("id", JNum (twc_id t)); ("name", JStr (twc_name t));
        ("createdAt", JNum (twc_createdAt t));
        ("postCount", JNum (twc_postCount t))].

Definition TagWithCountSchema (j : Json) : option TagWithCount :=
  match j with
  | JObj fs =>
      i ← field "id" fs ≫= asNum;
      n ← field "name" fs ≫= asStr;
      c ← field "createdAt" fs ≫= asNum;
      p ← field "postCount" fs ≫= asNum;
      Some (mkTagWithCount i n c p)
  | _ => None
  end.

(** [z.array(schema)] with the payload written for a list. *)
Definition array_encode {A} (enc : A -> Json) (l : list A) : Json :=
  JArr (map enc l).

Definition z_array {A} (schema : Json -> option A) (j : Json) : option (list A) :=
  match j with
  | JArr items => mapM schema items
  | _ => None
  end.

End Schema.

(** ** The relational store (features/tags/data/tags.data.ts) *)

Module TagRepo.
Import Schema.

Inductive PostStatus := Draft | Published.

Record Post := mkPost { post_id : Z; post_slug : string; post_status : PostStatus }.

(** Modelled from the spec: the authoritative relational store behind
    [context.db], whose schema is declared outside the service; the
    tables the tag queries read and write: tags, posts and the post-tag
    association rows [(postId, tagId)]. *)
Record Db := mkDb {
  tags : list Tag;
  posts : list Post;
  postTags : list (Z * Z);
  nextTagId : Z;
  now : Z }.

Definition isPublished (p : Post) : bool :=
  match post_status p with Published => true | Draft => false end.

Definition hasTag (db : Db) (postId tagId : Z) : bool :=
  existsb (fun pt => (fst pt =? postId) && (snd pt =? tagId)) (postTags db).

(** Modelled from the spec: the ordering of a query result, ORDER BY; the
    rows sorted by a total preorder given as a boolean test. *)
Definition holds {A} (le : A -> A -> bool) : relation A :=
  fun x y => le x y = true.

Global Instance holds_dec {A} (le : A -> A -> bool) x y : Decision (holds le x y) :=
  bool_eq_dec (le x y) true.

Definition orderBy {A} (le : A -> A -> bool) : list A -> list A :=
  merge_sort (holds le).

Definition directed {A} (dir : SortDir) (le : A -> A -> bool) : A -> A -> bool :=
  match dir with Asc => le | Desc => fun x y => le y x end.

Definition tagLe (sortBy : TagSortBy) (a b : Tag) : bool :=
  match sortBy with
  | TagByName => String.leb (tag_name a) (tag_name b)
  | TagByCreatedAt => tag_createdAt a <=? tag_createdAt b
  end.

Definition countLe (sortBy : SortBy) (a b : TagWithCount) : bool :=
  match sortBy with
  | ByName => String.leb (twc_name a) (twc_name b)
  | ByCreatedAt => twc_createdAt a <=? twc_createdAt b
  | ByPostCount => twc_postCount a <=? twc_postCount b
  end.

(** Modelled from the spec: TagRepo.getAllTags, in tags.data.ts; every tag,
    ordered by the given column and direction. *)
Definition getAllTags (db : Db) (sortBy : TagSortBy) (sortDir : SortDir) : list Tag :=
  orderBy (directed sortDir (tagLe sortBy)) (tags db).

(** Modelled from the spec: the count column of getAllTagsWithCount; the
    number of posts carrying a tag; with [publicOnly], of published posts
    ("count of associated published items per entity"). *)
Definition postCount (db : Db) (publicOnly : bool) (tagId : Z) : Z :=
  Z.of_nat (length (List.filter
    (fun p => hasTag db (post_id p) tagId && (negb publicOnly || isPublished p))
    (posts db))).

Definition withCount (db : Db) (publicOnly : bool) (t : Tag) : TagWithCount :=
  mkTagWithCount (tag_id t) (tag_name t) (tag_createdAt t)
    (postCount db publicOnly (tag_id t)).

(** Modelled from the spec: TagRepo.getAllTagsWithCount, in tags.data.ts;
    every tag with its post count, ordered; absent options default to
    name, ascending, all posts. *)
Definition getAllTagsWithCount (db : Db) (options : GetTagsInput) : list TagWithCount :=
  let sortBy := default ByName (in_sortBy options) in
  let sortDir := default Asc (in_sortDir options) in
  let publicOnly := default false (in_publicOnly options) in
  orderBy (directed sortDir (countLe sortBy)) (map (withCount db publicOnly) (tags db)).

(** Modelled from the spec: TagRepo.getTagsByPostId, in tags.data.ts. *)
Definition getTagsByPostId (db : Db) (postId : Z) : list Tag :=
  List.filter (fun t => hasTag db postId (tag_id t)) (tags db).

(** Modelled from the spec: TagRepo.nameExists, in tags.data.ts; whether
    some tag other than [excludeId] carries the name. *)
Definition nameExists (db : Db) (name : string) (excludeId : option Z) : bool :=
  existsb
    (fun t => String.eqb (tag_name t) name &&
              match excludeId with
              | Some id => negb (tag_id t =? id)
              | None => true
              end)
    (tags db).

(** Modelled from the spec: TagRepo.insertTag, in tags.data.ts; appends a
    row with a fresh id and returns it. *)
Definition insertTag (db : Db) (name : string) : Tag * Db :=
  let tag := mkTag (nextTagId db) name (now db) in
  (tag, mkDb (tags db ++ [tag]) (posts db) (postTags db) (nextTagId db + 1) (now db)).

(** Modelled from the spec: TagRepo.findTagById, in tags.data.ts. *)
Definition findTagById (db : Db) (id : Z) : option Tag :=
  List.find (fun t => tag_id t =? id) (tags db).

(** Modelled from the spec: TagRepo.getPublishedPostsByTagId, in
    tags.data.ts; "list of {id, slug} for items affected by a mutation". *)
Definition getPublishedPostsByTagId (db : Db) (tagId : Z) : list PostRef :=
  map (fun p => mkPostRef (post_id p) (post_slug p))
    (List.filter (fun p => isPublished p && hasTag db (post_id p) tagId) (posts db)).

Definition applyUpdate (data : UpdateTagData) (t : Tag) : Tag :=
  mkTag (tag_id t) (default (tag_name t) (upd_name data)) (tag_createdAt t).

(** Modelled from the spec: TagRepo.updateTag, in tags.data.ts; rewrites
    the row and returns it ([None] when no row has the id). *)
Definition updateTag (db : Db) (id : Z) (data : UpdateTagData) : option Tag * Db :=
  (applyUpdate data <$> findTagById db id,
   mkDb (map (fun t => if tag_id t =? id then applyUpdate data t else t) (tags db))
     (posts db) (postTags db) (nextTagId db) (now db)).

(** Modelled from the spec: TagRepo.deleteTag, in tags.data.ts; removes the
    row and its association rows. *)
Definition deleteTag (db : Db) (id : Z) : Db :=
  mkDb (List.filter (fun t => negb (tag_id t =? id)) (tags db))
    (posts db)
    (List.filter (fun pt => negb (snd pt =? id)) (postTags db))
    (nextTagId db) (now db).

(** Modelled from the spec: TagRepo.setPostTags, in tags.data.ts; replaces
    the association rows of a post. *)
Definition setPostTags (db : Db) (postId : Z) (tagIds : list Z) : Db :=
  mkDb (tags db) (posts db)
    (List.filter (fun pt => negb (fst pt =? postId)) (postTags db)
       ++ map (fun tagId => (postId, tagId)) tagIds)
    (nextTagId db) (now db).

End TagRepo.

(** ** The request context *)

Module Ctx.
Import Schema.

(** Modelled from the spec: CacheEntry, the entry of the key-value cache
    behind [context.env]; the payload and the time to live it was written
    with.  Expiry is the store's business: an expired entry is an absent
    one. *)
Record Entry := mkEntry { entry_value : Json; entry_ttl : string }.

(** The calls made to the cache, to the CDN and to the [compute] callback
    of a cached read, in the order they are started. *)
Inductive Call :=
| CallCompute (key : string)
| CallSet (key : string)
| CallDeleteKey (key : string)
| CallBumpVersion (namespace : string)
| CallGetVersion (namespace : string)
| CallPurgeCDN (urls : list string).

(** A promise handed to [executionCtx.waitUntil]: the invalidation helper
    called on the posts it was given and suspended at its first [await].
    The call before that [await] has been started when the promise
    exists; what follows it runs when the runtime settles the promise,
    after the response. *)
Inductive Job :=
| InvalidateTagRelatedCache (affectedPosts : list PostRef).

Record Context := mkContext {
  db : TagRepo.Db;
  kv : gmap string Entry;
  versions : gmap string N;
  calls : list Call;
  executionCtx : list Job }.

Definition issue (c : Call) (context : Context) : Context :=
  mkContext (db context) (kv context) (versions context)
    (calls context ++ [c]) (executionCtx context).

Definition setKv (m : gmap string Entry) (context : Context) : Context :=
  mkContext (db context) m (versions context) (calls context) (executionCtx context).

Definition setVersions (m : gmap string N) (context : Context) : Context :=
  mkContext (db context) (kv context) m (calls context) (executionCtx context).

Definition setDb (d : TagRepo.Db) (context : Context) : Context :=
  mkContext d (kv context) (versions context) (calls context) (executionCtx context).

Definition setExecutionCtx (q : list Job) (context : Context) : Context :=
  mkContext (db context) (kv context) (versions context) (calls context) q.

(** An awaited query of the store, and an awaited write to it. *)
Definition query {A} (q : TagRepo.Db -> A) : M Context A :=
  fun context => (q (db context), context).

Definition execute {A} (q : TagRepo.Db -> A * TagRepo.Db) : M Context A :=
  fun context => let (a, d) := q (db context) in (a, setDb d context).

(** [context.executionCtx.waitUntil(promise)]: the promise, which the
    caller has already obtained by calling the async function, is kept for
    the runtime to settle after the response; the caller does not wait. *)
Definition waitUntil (job : Job) : M Context unit :=
  fun context => (tt, setExecutionCtx (executionCtx context ++ [job]) context).

End Ctx.

(** ** The cache service (features/cache/cache.service.ts) *)

Module CacheService.
Import Schema Ctx.

(** Modelled from the spec: CacheService.getRaw, in cache.service.ts;
    "bypasses schema validation; used for cache-presence assertions". *)
Definition getRaw (context : Context) (key : string) : option Json :=
  entry_value <$> kv context !! key.

(** Modelled from the spec: CacheService.deleteKey, in cache.service.ts;
    "idempotent; deleting an absent key is not an error". *)
Definition deleteKey (key : string) : M Context unit :=
  fun context => (tt, setKv (delete key (kv context)) (issue (CallDeleteKey key) context)).

(** Modelled from the spec: CacheService.getVersion, in cache.service.ts;
    "returns current version (0 if unset)". *)
Definition currentVersion (context : Context) (namespace : string) : N :=
  default 0%N (versions context !! namespace).

Definition getVersion (namespace : string) : M Context N :=
  fun context => (currentVersion context namespace, issue (CallGetVersion namespace) context).

(** Modelled from the spec: CacheService.bumpVersion, in cache.service.ts;
    "atomically increments the namespace's counter". *)
Definition bumpVersion (namespace : string) : M Context unit :=
  fun context =>
    (tt, setVersions
           (<[namespace := N.succ (currentVersion context namespace)]> (versions context))
           (issue (CallBumpVersion namespace) context)).

(** Modelled from the spec: the write of a cache entry by [get]; "stores
    it with the given TTL". *)
Definition set (key : string) (value : Json) (ttl : string) : M Context unit :=
  fun context =>
    (tt, setKv (<[key := mkEntry value ttl]> (kv context)) (issue (CallSet key) context)).

(** Modelled from the spec: CacheService.get, in cache.service.ts; "returns
    cached value if present and schema-valid; on miss or validation
    failure, calls compute(), validates its result against schema, stores
    it with the given TTL, and returns it"; "if compute() fails, the error
    propagates; nothing is cached".  [None] is a propagated error; a
    computed value the schema rejects is one too.  [encode] is the payload
    written for a value.  The entry is written before the call returns, as
    the contract has it (the service's test settles the background
    promises before it looks at the entry). *)
Definition cached {T} (context : Context) (key : string)
    (schema : Json -> option T) : option T :=
  getRaw context key ≫= schema.

Definition get {T} (key : string) (schema : Json -> option T) (encode : T -> Json)
    (compute : Context -> option T) (ttl : string) : M Context (option T) :=
  fun context =>
    match cached context key schema with
    | Some value => (Some value, context)
    | None =>
        let context := issue (CallCompute key) context in
        match compute context with
        | None => (None, context)
        | Some value =>
            match schema (encode value) with
            | None => (None, context)
            | Some _ => (Some value, snd (set key (encode value) ttl context))
            end
        end
    end.

End CacheService.

(** ** The edge purge (lib/invalidate.ts) *)

Module Invalidate.
Import Ctx.

(** Modelled from the spec: purgeCDNCache, in lib/invalidate.ts; the edge
    purge collaborator, "purge(urls)", best-effort.  The request is all
    the service sees of it. *)
Definition purgeCDNCache (urls : list string) : M Context unit :=
  fun context => (tt, issue (CallPurgeCDN urls) context).

End Invalidate.

(** ** The tag service (features/tags/tags.service.ts) *)

Module TagService.
Import Schema Ctx.

(** Get all tags. *)
Definition getTags (context : Context) (data : GetTagsInput) : list (Tag + TagWithCount) :=
  let sortBy := default ByName (in_sortBy data) in
  let sortDir := default Asc (in_sortDir data) in
  let withCount := default false (in_withCount data) in
  let publicOnly := default false (in_publicOnly data) in
  if withCount then
    map inr (TagRepo.getAllTagsWithCount (db context)
               (mkGetTagsInput (Some sortBy) (Some sortDir) None (Some publicOnly)))
  else
    map inl (TagRepo.getAllTags (db context)
               match sortBy with
               | ByPostCount => TagByName
               | ByName => TagByName
               | ByCreatedAt => TagByCreatedAt
               end
               sortDir).

(** Get public tags list: a cached read under the public list key. *)
Definition getPublicTags : M Context (option (list TagWithCount)) :=
  CacheService.get TAGS_CACHE_KEYS_publicList
    (z_array TagWithCountSchema) (array_encode TagWithCount_encode)
    (fun context =>
       Some (TagRepo.getAllTagsWithCount (db context)
               (mkGetTagsInput (Some ByPostCount) (Some Desc) None (Some true))))
    "7d".

(** Get all tags with counts (not cached). *)
Definition getTagsWithCount (context : Context) (data : GetTagsInput) : list TagWithCount :=
  TagRepo.getAllTagsWithCount (db context) data.

(** Get tags for a specific post. *)
Definition getTagsByPostId (context : Context) (data : GetTagsByPostIdInput) : list Tag :=
  TagRepo.getTagsByPostId (db context) (gtp_postId data).

(** The URLs purged on the precise path: the list pages, then one push per
    affected post. *)
Definition cdnUrls (affectedPosts : list PostRef) : list string :=
  fold_left (fun urls post => (urls ++ ["/post/" +:+ ref_slug post])%list)
    affectedPosts ["/"; "/posts"].

(** The helper after its first [await]: the branch on the affected posts. *)
Definition invalidateTagRelatedCache_resumed (affectedPosts : list PostRef) : M Context unit :=
  if (0 <? length affectedPosts)%nat then
    CacheService.bumpVersion "posts:list" ;;
    version ← CacheService.getVersion "posts:detail" ;
    forEach affectedPosts (fun post =>
      CacheService.deleteKey (POSTS_CACHE_KEYS_detail version (ref_slug post))) ;;
    Invalidate.purgeCDNCache (cdnUrls affectedPosts)
  else
    CacheService.bumpVersion "posts:detail" ;;
    CacheService.bumpVersion "posts:list" ;;
    Invalidate.purgeCDNCache ["/"; "/posts"].

(** Helper to invalidate caches related to tags and their associated
    posts, run to its end: the awaited delete of the public list key, then
    the branch. *)
Definition invalidateTagRelatedCache (affectedPosts : list PostRef) : M Context unit :=
  CacheService.deleteKey TAGS_CACHE_KEYS_publicList ;;
  invalidateTagRelatedCache_resumed affectedPosts.

(** The helper called without [await], as the argument of [waitUntil]: an
    async function runs at once up to its first [await], so the delete of
    the public list key is started by the call itself, and what the call
    returns is the promise of the rest.  A call that is started is taken
    to have its effect then, as for the tasks of [Promise.all]. *)
Definition invalidateTagRelatedCache_called (affectedPosts : list PostRef) : M Context Job :=
  CacheService.deleteKey TAGS_CACHE_KEYS_publicList ;;
  mret (InvalidateTagRelatedCache affectedPosts).

Definition createTag (data : CreateTagInput) : M Context (Result Tag) :=
  exists_ ← query (fun d => TagRepo.nameExists d (create_name data) None) ;
  if exists_ : bool then mret (err TAG_NAME_ALREADY_EXISTS)
  else
    tag ← execute (fun d => TagRepo.insertTag d (create_name data)) ;
    mret (ok tag).

(** The truthiness of a string: every string but the empty one. *)
Definition truthy (s : string) : bool := negb (String.eqb s "").

(** The second half of [updateTag], after the name check. *)
Definition updateTag_commit (data : UpdateTagInput) : M Context (Result (option Tag)) :=
  affectedPosts ← query (fun d => TagRepo.getPublishedPostsByTagId d (upd_id data)) ;
  tag ← execute (fun d => TagRepo.updateTag d (upd_id data) (upd_data data)) ;
  promise ← invalidateTagRelatedCache_called affectedPosts ;
  waitUntil promise ;;
  mret (ok tag).

(** Update a tag. *)
Definition updateTag (data : UpdateTagInput) : M Context (Result (option Tag)) :=
  existingTag ← query (fun d => TagRepo.findTagById d (upd_id data)) ;
  match existingTag with
  | None => mret (err TAG_NOT_FOUND)
  | Some existingTag =>
      match upd_name (upd_data data) with
      | Some name =>
          if truthy name && negb (String.eqb name (tag_name existingTag)) then
            exists_ ← query (fun d => TagRepo.nameExists d name (Some (upd_id data))) ;
            if exists_ : bool then mret (err TAG_NAME_ALREADY_EXISTS)
            else updateTag_commit data
          else updateTag_commit data
      | None => updateTag_commit data
      end
  end.

(** Delete a tag. *)
Definition deleteTag (data : DeleteTagInput) : M Context unit :=
  tag ← query (fun d => TagRepo.findTagById d (del_id data)) ;
  match tag with
  | None => mret tt
  | Some _ =>
      affectedPosts ← query (fun d => TagRepo.getPublishedPostsByTagId d (del_id data)) ;
      execute (fun d => (tt, TagRepo.deleteTag d (del_id data))) ;;
      promise ← invalidateTagRelatedCache_called affectedPosts ;
      waitUntil promise
  end.

(** Set tags for a post (edit only, no cache invalidation). *)
Definition setPostTags (data : SetPostTagsInput) : M Context unit :=
  execute (fun d => (tt, TagRepo.setPostTags d (spt_postId data) (spt_tagIds data))).

End TagService.

(** ** The runtime that settles the background promises *)

Module Runtime.
Import Schema Ctx.

(** Settling a promise resumes the helper after the [await] it was
    suspended at. *)
Definition settle (job : Job) : M Context unit :=
  match job with
  | InvalidateTagRelatedCache affectedPosts =>
      TagService.invalidateTagRelatedCache_resumed affectedPosts
  end.

(** Modelled from the spec: waitForBackgroundTasks, of the test utilities;
    the background runner settles every promise handed to [waitUntil], in
    the order they were handed over, after the response. *)
Definition waitForBackgroundTasks (context : Context) : Context :=
  snd (forEach (executionCtx context) settle (setExecutionCtx [] context)).

End Runtime.

(** ** The service when calls to the cache and the CDN can fail *)

Module Outage.
Import Schema Ctx.

(** How a promise settles. *)
Inductive Settled (A : Type) : Type :=
| Fulfilled (value : A)
| Rejected.
Arguments Fulfilled {A} value.
Arguments Rejected {A}.

Definition isFulfilled {A} (s : Settled A) : bool :=
  match s with Fulfilled _ => true | Rejected => false end.

(** Modelled from the spec: the failure of a call to the cache or to the
    CDN, "invalidation sub-operation failure (delete/bump/purge fails)".
    [fails] says which calls fail.  A call that fails is started all the
    same, has no effect, and its promise rejects. *)
Definition Faults : Type := Call -> bool.

Definition noFaults : Faults := fun _ => false.

Definition outage : Faults := fun _ => true.

Definition attempt {A} (fails : Faults) (c : Call) (call : M Context A)
    : M Context (Settled A) :=
  fun context =>
    if fails c then (Rejected, issue c context)
    else let (a, context') := call context in (Fulfilled a, context').

Definition deleteKey (fails : Faults) (key : string) : M Context (Settled unit) :=
  attempt fails (CallDeleteKey key) (CacheService.deleteKey key).

Definition bumpVersion (fails : Faults) (namespace : string) : M Context (Settled unit) :=
  attempt fails (CallBumpVersion namespace) (CacheService.bumpVersion namespace).

Definition getVersion (fails : Faults) (namespace : string) : M Context (Settled N) :=
  attempt fails (CallGetVersion namespace) (CacheService.getVersion namespace).

Definition purgeCDNCache (fails : Faults) (urls : list string) : M Context (Settled unit) :=
  attempt fails (CallPurgeCDN urls) (Invalidate.purgeCDNCache urls).

(** [await promise] in an async function: a rejection is thrown, and ends
    the function there with its own promise rejected. *)
Definition awaiting {A B} (promise : M Context (Settled A))
    (next : A -> M Context (Settled B)) : M Context (Settled B) :=
  settled ← promise ;
  match settled with
  | Fulfilled a => next a
  | Rejected => mret Rejected
  end.

(** [tasks.push(call)] for every element: each call is started. *)
Fixpoint pushEach {A} (l : list A) (task : A -> M Context (Settled unit))
    : M Context (list (Settled unit)) :=
  match l with
  | [] => mret []
  | x :: l' => started ← task x ; others ← pushEach l' task ; mret (started :: others)
  end.

(** [Promise.all(tasks)] over tasks that have been started: fulfilled when
    each of them is. *)
Definition Promise_all (tasks : list (Settled unit)) : Settled unit :=
  if forallb isFulfilled tasks then Fulfilled tt else Rejected.

(** The helper after its first [await], with calls that can fail. *)
Definition invalidateTagRelatedCache_resumed (fails : Faults) (affectedPosts : list PostRef)
    : M Context (Settled unit) :=
  if (0 <? length affectedPosts)%nat then
    bumped ← bumpVersion fails "posts:list" ;
    awaiting (getVersion fails "posts:detail") (fun version =>
      deleted ← pushEach affectedPosts (fun post =>
        deleteKey fails (POSTS_CACHE_KEYS_detail version (ref_slug post))) ;
      purged ← purgeCDNCache fails (TagService.cdnUrls affectedPosts) ;
      mret (Promise_all (bumped :: deleted ++ [purged])))
  else
    detail ← bumpVersion fails "posts:detail" ;
    list_ ← bumpVersion fails "posts:list" ;
    purged ← purgeCDNCache fails ["/"; "/posts"] ;
    mret (Promise_all [detail; list_; purged]).

(** The helper run to its end. *)
Definition invalidateTagRelatedCache (fails : Faults) (affectedPosts : list PostRef)
    : M Context (Settled unit) :=
  awaiting (deleteKey fails TAGS_CACHE_KEYS_publicList) (fun _ =>
    invalidateTagRelatedCache_resumed fails affectedPosts).

(** The helper called without [await]: its first call is started, failing
    or not, and the promise of the rest is returned. *)
Definition invalidateTagRelatedCache_called (fails : Faults) (affectedPosts : list PostRef)
    : M Context Job :=
  deleteKey fails TAGS_CACHE_KEYS_publicList ;;
  mret (InvalidateTagRelatedCache affectedPosts).

(** Settling the promise resumes the helper at its first [await]: when
    the delete it waits for has failed, the helper ends there. *)
Definition settle (fails : Faults) (job : Job) : M Context (Settled unit) :=
  match job with
  | InvalidateTagRelatedCache affectedPosts =>
      if fails (CallDeleteKey TAGS_CACHE_KEYS_publicList) then mret Rejected
      else invalidateTagRelatedCache_resumed fails affectedPosts
  end.

(** The background runner: every promise is settled, and how each one
    settled is all that is left of it. *)
Definition waitForBackgroundTasks (fails : Faults) (context : Context)
    : list (Settled unit) * Context :=
  pushEach (executionCtx context) (settle fails) (setExecutionCtx [] context).

(** The second half of [updateTag], after the name check. *)
Definition updateTag_commit (fails : Faults) (data : UpdateTagInput)
    : M Context (Settled (Result (option Tag))) :=
  affectedPosts ← query (fun d => TagRepo.getPublishedPostsByTagId d (upd_id data)) ;
  tag ← execute (fun d => TagRepo.updateTag d (upd_id data) (upd_data data)) ;
  promise ← invalidateTagRelatedCache_called fails affectedPosts ;
  waitUntil promise ;;
  mret (Fulfilled (ok tag)).

(** Update a tag: the promise of the endpoint. *)
Definition updateTag (fails : Faults) (data : UpdateTagInput)
    : M Context (Settled (Result (option Tag))) :=
  existingTag ← query (fun d => TagRepo.findTagById d (upd_id data)) ;
  match existingTag with
  | None => mret (Fulfilled (err TAG_NOT_FOUND))
  | Some existingTag =>
      match upd_name (upd_data data) with
      | Some name =>
          if TagService.truthy name && negb (String.eqb name (tag_name existingTag)) then
            exists_ ← query (fun d => TagRepo.nameExists d name (Some (upd_id data))) ;
            if exists_ : bool then mret (Fulfilled (err TAG_NAME_ALREADY_EXISTS))
            else updateTag_commit fails data
          else updateTag_commit fails data
      | None => updateTag_commit fails data
      end
  end.

(** Delete a tag: the promise of the endpoint. *)
Definition deleteTag (fails : Faults) (data : DeleteTagInput) : M Context (Settled unit) :=
  tag ← query (fun d => TagRepo.findTagById d (del_id data)) ;
  match tag with
  | None => mret (Fulfilled tt)
  | Some _ =>
      affectedPosts ← query (fun d => TagRepo.getPublishedPostsByTagId d (del_id data)) ;
      execute (fun d => (tt, TagRepo.deleteTag d (del_id data))) ;;
      promise ← invalidateTagRelatedCache_called fails affectedPosts ;
      waitUntil promise ;;
      mret (Fulfilled tt)
  end.

(** The context a mutation returns in when calls can fail. *)
Definition dispatched (fails : Faults) (affectedPosts : list PostRef) (d : TagRepo.Db)
    (context : Context) : Context :=
  setExecutionCtx
    (executionCtx context ++ [InvalidateTagRelatedCache affectedPosts])
    (snd (deleteKey fails TAGS_CACHE_KEYS_publicList (setDb d context))).

End Outage.

(** ** Observations on the call log and histories of requests *)

Module History.
Import Schema Ctx.

(** How often [compute] was called for a key: the call-count probe of a
    cached read. *)
Definition computations (key : string) (log : list Call) : nat :=
  length (List.filter
    (fun c => match c with CallCompute k => String.eqb k key | _ => false end) log).

(** How often the version of a namespace was read. *)
Definition versionReads (namespace : string) (log : list Call) : nat :=
  length (List.filter
    (fun c => match c with CallGetVersion n => String.eqb n namespace | _ => false end) log).

(** The deletes of a log that aim at a post's detail key, and the purged
    URLs of a log that are a post's page. *)
Definition isPostUrl (url : string) : bool := String.prefix "/post/" url.

Definition isDetailKey (key : string) : bool := String.prefix "posts:detail:" key.

Definition perEntityCall (c : Call) : bool :=
  match c with
  | CallDeleteKey key => isDetailKey key
  | CallPurgeCDN urls => existsb isPostUrl urls
  | _ => false
  end.

(** Anything a client or the runtime can do to a context: a call of the
    cache service, a request to the tag service, or the settling of the
    background promises. *)
Inductive Op :=
| OpSet (key : string) (value : Json) (ttl : string)
| OpDeleteKey (key : string)
| OpBumpVersion (namespace : string)
| OpGetVersion (namespace : string)
| OpPurgeCDN (urls : list string)
| OpInvalidate (affectedPosts : list PostRef)
| OpGetPublicTags
| OpCreateTag (data : CreateTagInput)
| OpUpdateTag (data : UpdateTagInput)
| OpDeleteTag (data : DeleteTagInput)
| OpSetPostTags (data : SetPostTagsInput)
| OpBackground.

Definition perform (op : Op) (context : Context) : Context :=
  match op with
  | OpSet key value ttl => snd (CacheService.set key value ttl context)
  | OpDeleteKey key => snd (CacheService.deleteKey key context)
  | OpBumpVersion namespace => snd (CacheService.bumpVersion namespace context)
  | OpGetVersion namespace => snd (CacheService.getVersion namespace context)
  | OpPurgeCDN urls => snd (Invalidate.purgeCDNCache urls context)
  | OpInvalidate affectedPosts =>
      snd (TagService.invalidateTagRelatedCache affectedPosts context)
  | OpGetPublicTags => snd (TagService.getPublicTags context)
  | OpCreateTag data => snd (TagService.createTag data context)
  | OpUpdateTag data => snd (TagService.updateTag data context)
  | OpDeleteTag data => snd (TagService.deleteTag data context)
  | OpSetPostTags data => snd (TagService.setPostTags data context)
  | OpBackground => Runtime.waitForBackgroundTasks context
  end.

Definition performAll (ops : list Op) (context : Context) : Context :=
  fold_left (fun c op => perform op c) ops context.

(** The keys of a list removed from the cache, first to last. *)
Definition deleteAll (keys : list string) (m : gmap string Entry) : gmap string Entry :=
  fold_left (fun m key => delete key m) keys m.

(** The calls of the conservative path. *)
Definition conservativeCalls : list Call :=
  [CallDeleteKey TAGS_CACHE_KEYS_publicList; CallBumpVersion "posts:detail";
   CallBumpVersion "posts:list"; CallPurgeCDN ["/"; "/posts"]].

(** Whether the new name of an update is taken: the check runs only for a
    non-empty name that differs from the current one. *)
Definition nameConflict (d : TagRepo.Db) (data : UpdateTagInput) (existingTag : Tag) : bool :=
  match upd_name (upd_data data) with
  | Some name =>
      TagService.truthy name && negb (String.eqb name (tag_name existingTag))
      && TagRepo.nameExists d name (Some (upd_id data))
  | None => false
  end.

(** The context a mutation returns in: the store is written, the helper
    has been called on the affected posts, which started the delete of
    the public list key, and its promise is the last of the queue. *)
Definition dispatched (affectedPosts : list PostRef) (d : TagRepo.Db) (context : Context)
    : Context :=
  setExecutionCtx
    (executionCtx context ++ [InvalidateTagRelatedCache affectedPosts])
    (snd (CacheService.deleteKey TAGS_CACHE_KEYS_publicList (setDb d context))).

(** The response and the context of an update that went through. *)
Definition committed (data : UpdateTagInput) (context : Context)
    : Result (option Tag) * Context :=
  (ok (fst (TagRepo.updateTag (db context) (upd_id data) (upd_data data))),
   dispatched (TagRepo.getPublishedPostsByTagId (db context) (upd_id data))
     (snd (TagRepo.updateTag (db context) (upd_id data) (upd_data data))) context).

(** Every counter of the second context is at least the one of the first. *)
Definition versionsGrow (c c' : Context) : Prop :=
  forall namespace,
    (CacheService.currentVersion c namespace <= CacheService.currentVersion c' namespace)%N.

(** An ordering of tags by name in a direction. *)
Definition nameOrdered (dir : SortDir) (a b : Tag) : Prop :=
  match dir with
  | Asc => String.leb (tag_name a) (tag_name b) = true
  | Desc => String.leb (tag_name b) (tag_name a) = true
  end.

(** The public view a cached tag list is derived from. *)
Definition publicView (d : TagRepo.Db) : list TagWithCount :=
  TagRepo.getAllTagsWithCount d
    (mkGetTagsInput (Some ByPostCount) (Some Desc) None (Some true)).

End History.

(** ** Sample stores *)

Module Sample.
Import Schema Ctx.

(** Two tags; one published post tagged [rocq], one draft tagged [ocaml]. *)
Definition blog : TagRepo.Db :=
  TagRepo.mkDb
    [mkTag 1 "rocq" 10; mkTag 2 "ocaml" 11]
    [TagRepo.mkPost 1 "hello" TagRepo.Published; TagRepo.mkPost 2 "draft" TagRepo.Draft]
    [(1, 1); (2, 2)] 3 100.

Definition fresh : Context := mkContext blog ∅ ∅ [] [].

(** The same store after a first read of the public tag list. *)
Definition warmed : Context := snd (TagService.getPublicTags fresh).

End Sample.

(** ** The tag manager (the admin component that drives the tag service) *)

Module TagManager.
Import Schema.

(** The sort state of the table: column and direction; the table opens
    sorted by post count, descending. *)
Record SortState := mkSortState { sortBy : SortBy; sortDir : SortDir }.

Definition initialSort : SortState := mkSortState ByPostCount Desc.

(** [sortBy === field] *)
Definition sameField (a b : SortBy) : bool :=
  match a, b with
  | ByName, ByName | ByCreatedAt, ByCreatedAt | ByPostCount, ByPostCount => true
  | _, _ => false
  end.

Definition toggleSort (field : SortBy) (s : SortState) : SortState :=
  if sameField (sortBy s) field then
    mkSortState (sortBy s) (match sortDir s with Asc => Desc | Desc => Asc end)
  else
    mkSortState field Desc.

(** [haystack.includes(needle)]: the needle occurs somewhere in the haystack. *)
Fixpoint includes (haystack needle : string) : bool :=
  String.prefix needle haystack ||
  match haystack with
  | EmptyString => false
  | String _ rest => includes rest needle
  end.

(** The rows shown for a search term.  [toLowerCase] is the string method
    of the language, taken as a parameter. *)
Definition filteredTags (toLowerCase : string -> string)
    (tags : list TagWithCount) (searchTerm : string) : list TagWithCount :=
  List.filter
    (fun tag => includes (toLowerCase (twc_name tag)) (toLowerCase searchTerm))
    tags.




End TagManager.

(** ** The calls of an invalidation, by path *)

Module Flow.
Import Schema Ctx History.

(** What the invalidation helper issues for a list of affected posts, when
    the version of posts:detail reads [version]. *)
Definition invalidationCalls (affectedPosts : list PostRef) (version : N) : list Call :=
  match affectedPosts with
  | [] => conservativeCalls
  | _ :: _ =>
      [CallDeleteKey TAGS_CACHE_KEYS_publicList; CallBumpVersion "posts:list";
       CallGetVersion "posts:detail"] ++
      map (fun post => CallDeleteKey (POSTS_CACHE_KEYS_detail version (ref_slug post)))
        affectedPosts ++
      [CallPurgeCDN (["/"; "/posts"] ++
         map (fun post => "/post/" +:+ ref_slug post) affectedPosts)]
  end.


(** A lower-casing of the letters A to Z, for examples. *)
Fixpoint lowerAscii (s : string) : string :=
  match s with
  | EmptyString => EmptyString
  | String c rest =>
      let n := Ascii.nat_of_ascii c in
      String (if ((65 <=? n) && (n <=? 90))%nat then Ascii.ascii_of_nat (n + 32) else c)
        (lowerAscii rest)
  end.

End Flow.

(** * Properties *)

Import Schema Ctx History.

Ltac run :=
  unfold TagService.invalidateTagRelatedCache, TagService.invalidateTagRelatedCache_resumed,
    TagService.invalidateTagRelatedCache_called, TagService.createTag,
    TagService.updateTag, TagService.updateTag_commit, TagService.deleteTag,
    TagService.setPostTags, CacheService.deleteKey, CacheService.bumpVersion,
    CacheService.getVersion, Invalidate.purgeCDNCache, CacheService.set,
    query, execute, waitUntil, mbind, M_bind, mret, M_ret; simpl.

(** ** The loop of deletes *)

Lemma deleteAll_lookup_absent keys (m : gmap string Entry) key :
  m !! key = None -> deleteAll keys m !! key = None.
Proof.
  revert m. induction keys as [|k keys IH]; intros m Hm; simpl; [done|].
  apply IH. destruct (decide (k = key)) as [->|Hne].
  - apply lookup_delete_eq.
  - by rewrite lookup_delete_ne.
Qed.

Lemma deleteAll_lookup_member keys (m : gmap string Entry) key :
  In key keys -> deleteAll keys m !! key = None.
Proof.
  revert m. induction keys as [|k keys IH]; intros m Hin; simpl; [destruct Hin|].
  destruct Hin as [->|Hin].
  - apply deleteAll_lookup_absent, lookup_delete_eq.
  - by apply IH.
Qed.

Lemma forEach_deleteKey {A} (key : A -> string) (l : list A) (context : Context) :
  forEach l (fun x => CacheService.deleteKey (key x)) context =
  (tt, mkContext (db context) (deleteAll (map key l) (kv context)) (versions context)
         (calls context ++ map (fun x => CallDeleteKey (key x)) l)
         (executionCtx context)).
Proof.
  revert context. induction l as [|x l IH]; intros [d m vs log q]; simpl.
  - unfold mret, M_ret. by rewrite app_nil_r.
  - unfold mbind, M_bind. unfold CacheService.deleteKey at 1. simpl.
    rewrite IH. simpl. by rewrite <- app_assoc.
Qed.

Lemma cdnUrls_unfold (affectedPosts : list PostRef) :
  TagService.cdnUrls affectedPosts =
  ["/"; "/posts"] ++ map (fun post => "/post/" +:+ ref_slug post) affectedPosts.
Proof.
  unfold TagService.cdnUrls. generalize ["/"; "/posts"].
  induction affectedPosts as [|p l IH]; intros acc; simpl.
  - by rewrite app_nil_r.
  - rewrite IH, <- app_assoc. done.
Qed.

(** The two paths of the helper after its first [await], as one state each. *)
Lemma resumed_conservative (context : Context) :
  TagService.invalidateTagRelatedCache_resumed [] context =
  (tt, mkContext (db context) (kv context)
         (<["posts:list" := N.succ (default 0%N
              (<["posts:detail" := N.succ (CacheService.currentVersion context "posts:detail")]>
                 (versions context) !! "posts:list"))]>
            (<["posts:detail" := N.succ (CacheService.currentVersion context "posts:detail")]>
               (versions context)))
         (calls context ++
            [CallBumpVersion "posts:detail"; CallBumpVersion "posts:list";
             CallPurgeCDN ["/"; "/posts"]])
         (executionCtx context)).
Proof.
  destruct context as [d m vs log q]. run.
  unfold issue, setKv, setVersions, CacheService.currentVersion. simpl.
  by rewrite <- !app_assoc.
Qed.

Lemma resumed_precise (affectedPosts : list PostRef) (context : Context) :
  affectedPosts <> [] ->
  let version := CacheService.currentVersion context "posts:detail" in
  TagService.invalidateTagRelatedCache_resumed affectedPosts context =
  (tt, mkContext (db context)
         (deleteAll
            (map (fun post => POSTS_CACHE_KEYS_detail version (ref_slug post)) affectedPosts)
            (kv context))
         (<["posts:list" := N.succ (CacheService.currentVersion context "posts:list")]>
            (versions context))
         (calls context ++
            [CallBumpVersion "posts:list"; CallGetVersion "posts:detail"] ++
            map (fun post => CallDeleteKey (POSTS_CACHE_KEYS_detail version (ref_slug post)))
              affectedPosts ++
            [CallPurgeCDN (["/"; "/posts"] ++
               map (fun post => "/post/" +:+ ref_slug post) affectedPosts)])
         (executionCtx context)).
Proof.
  intros Hne version. subst version.
  destruct context as [d m vs log q].
  destruct affectedPosts as [|p l]; [done|].
  unfold TagService.invalidateTagRelatedCache_resumed, mbind, M_bind.
  change (0 <? length (p :: l))%nat with true. cbv beta iota.
  unfold CacheService.bumpVersion, CacheService.getVersion at 1.
  cbv beta iota. rewrite forEach_deleteKey.
  unfold Invalidate.purgeCDNCache, issue, setKv, setVersions,
    CacheService.currentVersion. simpl.
  rewrite cdnUrls_unfold. simpl.
  rewrite lookup_insert_ne by discriminate.
  rewrite <- !app_assoc. reflexivity.
Qed.

(** The helper run to its end is its first call followed by the rest; a
    call of it that is handed to the runtime and settled there is the
    same run. *)
Lemma invalidate_unfold (affectedPosts : list PostRef) (context : Context) :
  TagService.invalidateTagRelatedCache affectedPosts context =
  TagService.invalidateTagRelatedCache_resumed affectedPosts
    (snd (CacheService.deleteKey TAGS_CACHE_KEYS_publicList context)).
Proof. reflexivity. Qed.

Lemma called_then_settled (affectedPosts : list PostRef) (context : Context) :
  (promise ← TagService.invalidateTagRelatedCache_called affectedPosts ;
   Runtime.settle promise) context
  = TagService.invalidateTagRelatedCache affectedPosts context.
Proof. reflexivity. Qed.

(** The two paths of the helper, as one state each. *)
Lemma invalidate_conservative (context : Context) :
  TagService.invalidateTagRelatedCache [] context =
  (tt, mkContext (db context)
         (delete TAGS_CACHE_KEYS_publicList (kv context))
         (<["posts:list" := N.succ (default 0%N
              (<["posts:detail" := N.succ (CacheService.currentVersion context "posts:detail")]>
                 (versions context) !! "posts:list"))]>
            (<["posts:detail" := N.succ (CacheService.currentVersion context "posts:detail")]>
               (versions context)))
         (calls context ++
            [CallDeleteKey TAGS_CACHE_KEYS_publicList; CallBumpVersion "posts:detail";
             CallBumpVersion "posts:list"; CallPurgeCDN ["/"; "/posts"]])
         (executionCtx context)).
Proof.
  rewrite invalidate_unfold, resumed_conservative.
  destruct context as [d m vs log q]. simpl.
  unfold CacheService.currentVersion. simpl. by rewrite <- !app_assoc.
Qed.

Lemma invalidate_precise (affectedPosts : list PostRef) (context : Context) :
  affectedPosts <> [] ->
  let version := CacheService.currentVersion context "posts:detail" in
  TagService.invalidateTagRelatedCache affectedPosts context =
  (tt, mkContext (db context)
         (deleteAll
            (map (fun post => POSTS_CACHE_KEYS_detail version (ref_slug post)) affectedPosts)
            (delete TAGS_CACHE_KEYS_publicList (kv context)))
         (<["posts:list" := N.succ (CacheService.currentVersion context "posts:list")]>
            (versions context))
         (calls context ++
            [CallDeleteKey TAGS_CACHE_KEYS_publicList; CallBumpVersion "posts:list";
             CallGetVersion "posts:detail"] ++
            map (fun post => CallDeleteKey (POSTS_CACHE_KEYS_detail version (ref_slug post)))
              affectedPosts ++
            [CallPurgeCDN (["/"; "/posts"] ++
               map (fun post => "/post/" +:+ ref_slug post) affectedPosts)])
         (executionCtx context)).
Proof.
  intros Hne version. subst version.
  rewrite invalidate_unfold, resumed_precise by done.
  destruct context as [d m vs log q]. simpl.
  unfold CacheService.currentVersion. simpl. by rewrite <- !app_assoc.
Qed.

Lemma deleteTag_run (data : DeleteTagInput) (context : Context) (tag : Tag) :
  TagRepo.findTagById (db context) (del_id data) = Some tag ->
  TagService.deleteTag data context =
  (tt, dispatched (TagRepo.getPublishedPostsByTagId (db context) (del_id data))
         (TagRepo.deleteTag (db context) (del_id data)) context).
Proof.
  intros Hfound. destruct context as [d m vs log q]. simpl in Hfound.
  run. by rewrite Hfound.
Qed.

(** The calls that aim at one post are recognised as such. *)
Lemma perEntityCall_recognises (version : N) (slug : string) :
  perEntityCall (CallDeleteKey (POSTS_CACHE_KEYS_detail version slug)) = true
  /\ perEntityCall (CallPurgeCDN ["/"; "/posts"; "/post/" +:+ slug]) = true.
Proof. split; [reflexivity|]. by destruct slug. Qed.

Lemma waitForBackgroundTasks_dispatched
    (affectedPosts : list PostRef) (d : TagRepo.Db) (context : Context) :
  executionCtx context = [] ->
  Runtime.waitForBackgroundTasks (dispatched affectedPosts d context)
  = snd (TagService.invalidateTagRelatedCache affectedPosts (setDb d context)).
Proof.
  destruct context as [d0 m vs log q]. simpl. intros ->.
  rewrite invalidate_unfold.
  unfold Runtime.waitForBackgroundTasks, dispatched. simpl.
  unfold mbind, M_bind, mret, M_ret.
  by destruct (TagService.invalidateTagRelatedCache_resumed affectedPosts _) as [[] c].
Qed.

(** C1.  With an empty list of affected posts the invalidation helper
    deletes the public list key, bumps the versions of both posts:detail
    and posts:list, and asks the CDN to purge "/" and "/posts" only; it
    issues no delete of a detail key and no purge of a post page.
    Deleting an existing tag that no published post carries calls the
    helper on the empty list: when the request returns the delete of the
    public list key has been started and nothing else, and the promise is
    queued; settling it takes this path, after that delete. *)
Theorem conservative_path_when_no_affected_posts :
  (forall context : Context,
      let context' := snd (TagService.invalidateTagRelatedCache [] context) in
      calls context' = calls context ++ conservativeCalls
      /\ Forall (fun c => perEntityCall c = false) conservativeCalls
      /\ CacheService.currentVersion context' "posts:detail"
         = N.succ (CacheService.currentVersion context "posts:detail")
      /\ CacheService.currentVersion context' "posts:list"
         = N.succ (CacheService.currentVersion context "posts:list")
      /\ kv context' = delete TAGS_CACHE_KEYS_publicList (kv context))
  /\ (forall (context : Context) (data : DeleteTagInput) (tag : Tag),
      TagRepo.findTagById (db context) (del_id data) = Some tag ->
      TagRepo.getPublishedPostsByTagId (db context) (del_id data) = [] ->
      let returned := snd (TagService.deleteTag data context) in
      executionCtx returned = executionCtx context ++ [InvalidateTagRelatedCache []]
      /\ db returned = TagRepo.deleteTag (db context) (del_id data)
      /\ calls returned = calls context ++ [CallDeleteKey TAGS_CACHE_KEYS_publicList]
      /\ versions returned = versions context
      /\ (executionCtx context = [] ->
          let settled := Runtime.waitForBackgroundTasks returned in
          calls settled = calls context ++ conservativeCalls
          /\ CacheService.getRaw settled TAGS_CACHE_KEYS_publicList = None
          /\ CacheService.currentVersion settled "posts:detail"
             = N.succ (CacheService.currentVersion context "posts:detail")
          /\ CacheService.currentVersion settled "posts:list"
             = N.succ (CacheService.currentVersion context "posts:list"))).
Proof.
  assert (Hpath : forall context : Context,
      let context' := snd (TagService.invalidateTagRelatedCache [] context) in
      calls context' = calls context ++ conservativeCalls
      /\ CacheService.currentVersion context' "posts:detail"
         = N.succ (CacheService.currentVersion context "posts:detail")
      /\ CacheService.currentVersion context' "posts:list"
         = N.succ (CacheService.currentVersion context "posts:list")
      /\ kv context' = delete TAGS_CACHE_KEYS_publicList (kv context)).
  { intros context context'. subst context'. rewrite invalidate_conservative.
    unfold CacheService.currentVersion. simpl.
    repeat split.
    - rewrite lookup_insert_ne by discriminate. by rewrite lookup_insert_eq.
    - rewrite lookup_insert_eq. by rewrite lookup_insert_ne by discriminate. }
  split.
  - intros context context'. destruct (Hpath context) as (Hc & Hd & Hl & Hk).
    repeat split; try assumption.
    repeat constructor.
  - intros context data tag Hfound Hnone returned. subst returned.
    rewrite (deleteTag_run _ _ _ Hfound), Hnone. cbn [snd].
    do 4 (split; [reflexivity|]).
    intros Hq. cbv zeta.
    rewrite waitForBackgroundTasks_dispatched by exact Hq.
    destruct (Hpath (setDb (TagRepo.deleteTag (db context) (del_id data)) context))
      as (Hc & Hd & Hl & Hk).
    repeat split; try assumption.
    unfold CacheService.getRaw. rewrite Hk. by rewrite lookup_delete_eq.
Qed.

Lemma conservative_path_when_no_affected_posts_witness :
  TagRepo.findTagById (db Sample.fresh) 2 = Some (mkTag 2 "ocaml" 11)
  /\ TagRepo.getPublishedPostsByTagId (db Sample.fresh) 2 = []
  /\ calls (Runtime.waitForBackgroundTasks
              (snd (TagService.deleteTag (mkDeleteTagInput 2) Sample.fresh)))
     = conservativeCalls.
Proof.
  split; [reflexivity|]. split; [reflexivity|].
  exact (proj1 (proj2 (proj2 (proj2 (proj2
    (proj2 conservative_path_when_no_affected_posts Sample.fresh (mkDeleteTagInput 2)
       (mkTag 2 "ocaml" 11) eq_refl eq_refl)))) eq_refl)).
Defined.

Lemma versionReads_app (namespace : string) (l1 l2 : list Call) :
  versionReads namespace (l1 ++ l2)
  = (versionReads namespace l1 + versionReads namespace l2)%nat.
Proof. unfold versionReads. by rewrite List.filter_app, length_app. Qed.

Lemma versionReads_deletes {A} (namespace : string) (key : A -> string) (l : list A) :
  versionReads namespace (map (fun x => CallDeleteKey (key x)) l) = 0%nat.
Proof. induction l as [|x l IH]; simpl; auto. Qed.

(** C2.  With a non-empty list of affected posts the helper bumps the
    version of posts:list, reads the version of posts:detail once, deletes
    the detail key of every affected post, each computed from that one
    version, and asks the CDN to purge "/", "/posts" and one "/post/{slug}"
    per affected post, nothing else. *)
Theorem precise_path_when_posts_affected
    (affectedPosts : list PostRef) (context : Context) :
  affectedPosts <> [] ->
  let version := CacheService.currentVersion context "posts:detail" in
  let context' := snd (TagService.invalidateTagRelatedCache affectedPosts context) in
  calls context' =
    calls context ++
      [CallDeleteKey TAGS_CACHE_KEYS_publicList; CallBumpVersion "posts:list";
       CallGetVersion "posts:detail"] ++
      map (fun post => CallDeleteKey (POSTS_CACHE_KEYS_detail version (ref_slug post)))
        affectedPosts ++
      [CallPurgeCDN (["/"; "/posts"] ++
         map (fun post => "/post/" +:+ ref_slug post) affectedPosts)]
  /\ versionReads "posts:detail" (calls context')
     = S (versionReads "posts:detail" (calls context))
  /\ CacheService.currentVersion context' "posts:list"
     = N.succ (CacheService.currentVersion context "posts:list")
  /\ CacheService.currentVersion context' "posts:detail" = version
  /\ (forall post, In post affectedPosts ->
        CacheService.getRaw context' (POSTS_CACHE_KEYS_detail version (ref_slug post))
        = None).
Proof.
  intros Hne version context'. subst context'.
  rewrite (invalidate_precise affectedPosts context Hne).
  cbn [snd calls]. fold version. repeat split.
  - rewrite !versionReads_app, versionReads_deletes.
    change (versionReads "posts:detail"
              [CallDeleteKey TAGS_CACHE_KEYS_publicList; CallBumpVersion "posts:list";
               CallGetVersion "posts:detail"]) with 1%nat.
    change (versionReads "posts:detail"
              [CallPurgeCDN (["/"; "/posts"] ++
                 map (fun post => "/post/" +:+ ref_slug post) affectedPosts)]) with 0%nat.
    lia.
  - unfold CacheService.currentVersion. simpl. by rewrite lookup_insert_eq.
  - unfold CacheService.currentVersion. simpl.
    by rewrite lookup_insert_ne by discriminate.
  - intros post Hin. unfold CacheService.getRaw. simpl.
    rewrite deleteAll_lookup_member; [done|].
    apply in_map_iff. by exists post.
Qed.

Lemma precise_path_when_posts_affected_witness :
  [mkPostRef 1 "hello"] <> []
  /\ calls (snd (TagService.invalidateTagRelatedCache [mkPostRef 1 "hello"] Sample.fresh))
     = [CallDeleteKey "tags:public:list"; CallBumpVersion "posts:list";
        CallGetVersion "posts:detail"; CallDeleteKey "posts:detail:v0:hello";
        CallPurgeCDN ["/"; "/posts"; "/post/hello"]].
Proof.
  split; [discriminate|].
  exact (proj1 (precise_path_when_posts_affected [mkPostRef 1 "hello"] Sample.fresh
    ltac:(discriminate))).
Defined.

(** ** Settling the background promises *)

Lemma invalidate_deletes_public_list (affectedPosts : list PostRef) (context : Context) :
  let context' := snd (TagService.invalidateTagRelatedCache affectedPosts context) in
  (exists rest,
      calls context' = calls context ++ CallDeleteKey TAGS_CACHE_KEYS_publicList :: rest)
  /\ CacheService.getRaw context' TAGS_CACHE_KEYS_publicList = None.
Proof.
  intros context'. subst context'. unfold CacheService.getRaw.
  destruct affectedPosts as [|p l].
  - rewrite invalidate_conservative. cbn [snd calls kv]. split.
    + eexists. unfold conservativeCalls. reflexivity.
    + by rewrite lookup_delete_eq.
  - rewrite invalidate_precise by discriminate. cbn [snd calls kv]. split.
    + eexists. reflexivity.
    + rewrite deleteAll_lookup_absent; [done|]. apply lookup_delete_eq.
Qed.

Lemma resumed_keeps_public_list_absent (affectedPosts : list PostRef) (context : Context) :
  CacheService.getRaw context TAGS_CACHE_KEYS_publicList = None ->
  CacheService.getRaw (snd (TagService.invalidateTagRelatedCache_resumed affectedPosts context))
    TAGS_CACHE_KEYS_publicList = None.
Proof.
  unfold CacheService.getRaw. intros Habsent.
  destruct (kv context !! TAGS_CACHE_KEYS_publicList) as [e|] eqn:E; [discriminate|].
  destruct affectedPosts as [|p l].
  - rewrite resumed_conservative. cbn [snd kv]. by rewrite E.
  - rewrite resumed_precise by discriminate. cbn [snd kv].
    by rewrite deleteAll_lookup_absent.
Qed.

Lemma settle_all_keeps_public_list_absent (jobs : list Job) (context : Context) :
  CacheService.getRaw context TAGS_CACHE_KEYS_publicList = None ->
  CacheService.getRaw (snd (forEach jobs Runtime.settle context))
    TAGS_CACHE_KEYS_publicList = None.
Proof.
  revert context. induction jobs as [|[posts] jobs IH]; intros context Habsent.
  - exact Habsent.
  - simpl. unfold mbind, M_bind.
    pose proof (resumed_keeps_public_list_absent posts context Habsent) as H.
    destruct (TagService.invalidateTagRelatedCache_resumed posts context) as [[] c].
    by apply IH.
Qed.

(** Once a mutation has called the helper, the public list key is absent,
    and settling the queue keeps it so. *)
Lemma dispatched_settles_without_public_list
    (affectedPosts : list PostRef) (d : TagRepo.Db) (context : Context) :
  CacheService.getRaw (Runtime.waitForBackgroundTasks (dispatched affectedPosts d context))
    TAGS_CACHE_KEYS_publicList = None.
Proof.
  unfold Runtime.waitForBackgroundTasks.
  apply settle_all_keeps_public_list_absent.
  unfold CacheService.getRaw, dispatched. simpl. by rewrite lookup_delete_eq.
Qed.

(** ** The outcome of an update *)

Lemma updateTag_outcome (data : UpdateTagInput) (context : Context) :
  TagService.updateTag data context =
  match TagRepo.findTagById (db context) (upd_id data) with
  | None => (err TAG_NOT_FOUND, context)
  | Some existingTag =>
      if nameConflict (db context) data existingTag
      then (err TAG_NAME_ALREADY_EXISTS, context)
      else committed data context
  end.
Proof.
  destruct context as [d m vs log q]. unfold nameConflict, committed.
  unfold TagService.updateTag, query, mbind, M_bind, mret, M_ret.
  cbn [db]. destruct (TagRepo.findTagById d (upd_id data)) as [existingTag|]; [|done].
  assert (Hcommit : TagService.updateTag_commit data (mkContext d m vs log q)
    = (ok (fst (TagRepo.updateTag d (upd_id data) (upd_data data))),
       dispatched (TagRepo.getPublishedPostsByTagId d (upd_id data))
         (snd (TagRepo.updateTag d (upd_id data) (upd_data data)))
         (mkContext d m vs log q))) by reflexivity.
  destruct (upd_name (upd_data data)) as [name|]; [|exact Hcommit].
  destruct (TagService.truthy name && negb (String.eqb name (tag_name existingTag)));
    [|exact Hcommit].
  cbv beta. cbn [andb db].
  destruct (TagRepo.nameExists d name (Some (upd_id data))); [reflexivity|exact Hcommit].
Qed.

(** C3.  Whatever the list of affected posts, the first call of the
    invalidation helper deletes the public list key, before it looks at the
    list; so once a rename has gone through and its invalidation has been
    settled, the public list key is absent from the cache. *)
Theorem public_list_key_always_deleted :
  (forall (affectedPosts : list PostRef) (context : Context),
      let context' := snd (TagService.invalidateTagRelatedCache affectedPosts context) in
      (exists rest,
          calls context' = calls context ++ CallDeleteKey TAGS_CACHE_KEYS_publicList :: rest)
      /\ CacheService.getRaw context' TAGS_CACHE_KEYS_publicList = None)
  /\ (forall (data : UpdateTagInput) (context context' : Context) (tag : option Tag),
      TagService.updateTag data context = (ok tag, context') ->
      CacheService.getRaw (Runtime.waitForBackgroundTasks context')
        TAGS_CACHE_KEYS_publicList = None).
Proof.
  split; [exact invalidate_deletes_public_list|].
  intros data context context' tag Hrun.
  rewrite updateTag_outcome in Hrun.
  destruct (TagRepo.findTagById (db context) (upd_id data)) as [existingTag|];
    [|discriminate].
  destruct (nameConflict (db context) data existingTag); [discriminate|].
  unfold committed in Hrun. injection Hrun as _ <-.
  apply dispatched_settles_without_public_list.
Qed.

Lemma public_list_key_always_deleted_witness :
  let rename := mkUpdateTagInput 1 (mkUpdateTagData (Some "coq")) in
  CacheService.getRaw Sample.warmed TAGS_CACHE_KEYS_publicList <> None
  /\ fst (TagService.updateTag rename Sample.warmed)
     = ok (Some (mkTag 1 "coq" 10))
  /\ CacheService.getRaw
       (Runtime.waitForBackgroundTasks (snd (TagService.updateTag rename Sample.warmed)))
       TAGS_CACHE_KEYS_publicList = None.
Proof.
  intros rename. split; [discriminate|]. split; [reflexivity|].
  exact (proj2 public_list_key_always_deleted rename Sample.warmed
    (snd (TagService.updateTag rename Sample.warmed)) (Some (mkTag 1 "coq" 10)) eq_refl).
Defined.

(** ** Writes to the association rows *)

(** C4, as amended.  [setPostTags] writes the association rows of the
    store and nothing else: it deletes no key, bumps no version, asks for
    no purge and hands no invalidation to the background runner, so every
    cache entry is left as it was. *)
Theorem setPostTags_writes_the_store_only (data : SetPostTagsInput) (context : Context) :
  let context' := snd (TagService.setPostTags data context) in
  db context' = TagRepo.setPostTags (db context) (spt_postId data) (spt_tagIds data)
  /\ kv context' = kv context
  /\ versions context' = versions context
  /\ calls context' = calls context
  /\ executionCtx context' = executionCtx context
  /\ (forall key, CacheService.getRaw context' key = CacheService.getRaw context key)
  /\ (forall namespace,
        CacheService.currentVersion context' namespace
        = CacheService.currentVersion context namespace).
Proof.
  destruct context as [d m vs log q]. run.
  do 5 (split; [reflexivity|]). split; intros; reflexivity.
Qed.

(** C4, the claim as stated fails.  On a store whose public tag list is
    cached and fresh, moving the published post from one tag to the other
    changes the public view; no call is issued and no promise is queued,
    and the next read still serves the list of before the write. *)
Lemma setPostTags_leaves_public_list_stale :
  let retag := mkSetPostTagsInput 1 [2] in
  let written := snd (TagService.setPostTags retag Sample.warmed) in
  let settled := Runtime.waitForBackgroundTasks written in
  CacheService.cached Sample.warmed TAGS_CACHE_KEYS_publicList (z_array TagWithCountSchema)
    = Some (publicView (db Sample.warmed))
  /\ publicView (db settled) <> publicView (db Sample.warmed)
  /\ calls settled = calls Sample.warmed
  /\ executionCtx written = []
  /\ fst (TagService.getPublicTags settled) = Some (publicView (db Sample.warmed))
  /\ fst (TagService.getPublicTags settled) <> Some (publicView (db settled)).
Proof.
  intros retag written settled.
  split; [reflexivity|]. split; [by vm_compute|]. split; [reflexivity|].
  split; [reflexivity|]. split; [reflexivity|]. by vm_compute.
Qed.

(** ** What a mutation endpoint returns *)

Lemma deleteTag_outcome (data : DeleteTagInput) (context : Context) :
  TagService.deleteTag data context =
  match TagRepo.findTagById (db context) (del_id data) with
  | None => (tt, context)
  | Some _ =>
      (tt, dispatched (TagRepo.getPublishedPostsByTagId (db context) (del_id data))
             (TagRepo.deleteTag (db context) (del_id data)) context)
  end.
Proof.
  destruct (TagRepo.findTagById (db context) (del_id data)) as [tag|] eqn:E.
  - by apply deleteTag_run with tag.
  - destruct context as [d m vs log q]. simpl in E. run. by rewrite E.
Qed.

(** The endpoints when calls can fail, as one outcome each. *)
Lemma updateTag_under_faults (fails : Outage.Faults) (data : UpdateTagInput)
    (context : Context) :
  Outage.updateTag fails data context =
  match TagRepo.findTagById (db context) (upd_id data) with
  | None => (Outage.Fulfilled (err TAG_NOT_FOUND), context)
  | Some existingTag =>
      if nameConflict (db context) data existingTag
      then (Outage.Fulfilled (err TAG_NAME_ALREADY_EXISTS), context)
      else (Outage.Fulfilled
              (ok (fst (TagRepo.updateTag (db context) (upd_id data) (upd_data data)))),
            Outage.dispatched fails
              (TagRepo.getPublishedPostsByTagId (db context) (upd_id data))
              (snd (TagRepo.updateTag (db context) (upd_id data) (upd_data data))) context)
  end.
Proof.
  destruct context as [d m vs log q]. unfold nameConflict.
  unfold Outage.updateTag, query, mbind, M_bind, mret, M_ret.
  cbn [db]. destruct (TagRepo.findTagById d (upd_id data)) as [existingTag|]; [|done].
  assert (Hcommit : Outage.updateTag_commit fails data (mkContext d m vs log q)
    = (Outage.Fulfilled (ok (fst (TagRepo.updateTag d (upd_id data) (upd_data data)))),
       Outage.dispatched fails (TagRepo.getPublishedPostsByTagId d (upd_id data))
         (snd (TagRepo.updateTag d (upd_id data) (upd_data data)))
         (mkContext d m vs log q))).
  { unfold Outage.updateTag_commit, Outage.invalidateTagRelatedCache_called,
      Outage.dispatched, Outage.deleteKey, Outage.attempt, query, execute, waitUntil,
      mbind, M_bind, mret, M_ret. simpl.
    by destruct (fails (CallDeleteKey TAGS_CACHE_KEYS_publicList)). }
  destruct (upd_name (upd_data data)) as [name|]; [|exact Hcommit].
  destruct (TagService.truthy name && negb (String.eqb name (tag_name existingTag)));
    [|exact Hcommit].
  cbv beta. cbn [andb db].
  destruct (TagRepo.nameExists d name (Some (upd_id data))); [reflexivity|exact Hcommit].
Qed.

Lemma deleteTag_under_faults (fails : Outage.Faults) (data : DeleteTagInput)
    (context : Context) :
  Outage.deleteTag fails data context =
  match TagRepo.findTagById (db context) (del_id data) with
  | None => (Outage.Fulfilled tt, context)
  | Some _ =>
      (Outage.Fulfilled tt,
       Outage.dispatched fails
         (TagRepo.getPublishedPostsByTagId (db context) (del_id data))
         (TagRepo.deleteTag (db context) (del_id data)) context)
  end.
Proof.
  destruct context as [d m vs log q].
  unfold Outage.deleteTag, Outage.invalidateTagRelatedCache_called, Outage.dispatched,
    Outage.deleteKey, Outage.attempt, query, execute, waitUntil,
    mbind, M_bind, mret, M_ret. simpl.
  destruct (TagRepo.findTagById d (del_id data)); [|done].
  by destruct (fails (CallDeleteKey TAGS_CACHE_KEYS_publicList)).
Qed.

Lemma dispatched_without_faults (affectedPosts : list PostRef) (d : TagRepo.Db)
    (context : Context) :
  Outage.dispatched Outage.noFaults affectedPosts d context
  = dispatched affectedPosts d context.
Proof. reflexivity. Qed.

(** What the call of the helper leaves on return, whether its first call
    fails or not: the store written, one promise more, one call started,
    no version changed. *)
Lemma dispatched_under_faults (fails : Outage.Faults) (affectedPosts : list PostRef)
    (d : TagRepo.Db) (context : Context) :
  let returned := Outage.dispatched fails affectedPosts d context in
  db returned = d
  /\ executionCtx returned =
     executionCtx context ++ [InvalidateTagRelatedCache affectedPosts]
  /\ calls returned = calls context ++ [CallDeleteKey TAGS_CACHE_KEYS_publicList]
  /\ versions returned = versions context.
Proof.
  unfold Outage.dispatched, Outage.deleteKey, Outage.attempt.
  by destruct (fails (CallDeleteKey TAGS_CACHE_KEYS_publicList)).
Qed.

Lemma Promise_all_rejected (tasks : list (Outage.Settled unit)) :
  In Outage.Rejected tasks -> Outage.Promise_all tasks = Outage.Rejected.
Proof.
  intros Hin. unfold Outage.Promise_all.
  destruct (forallb Outage.isFulfilled tasks) eqn:E; [|done].
  rewrite forallb_forall in E. by specialize (E _ Hin).
Qed.

(** With the CDN down the helper's promise rejects, whatever the posts. *)
Lemma resumed_rejected_when_purge_fails (fails : Outage.Faults)
    (affectedPosts : list PostRef) (context : Context) :
  (forall urls, fails (CallPurgeCDN urls) = true) ->
  fst (Outage.invalidateTagRelatedCache_resumed fails affectedPosts context)
  = Outage.Rejected.
Proof.
  intros Hcdn. unfold Outage.invalidateTagRelatedCache_resumed.
  destruct (0 <? length affectedPosts)%nat.
  - unfold mbind, M_bind, Outage.awaiting, mbind, M_bind.
    destruct (Outage.bumpVersion fails "posts:list" context) as [bumped c1].
    destruct (Outage.getVersion fails "posts:detail" c1) as [[version|] c2]; [|done].
    destruct (Outage.pushEach affectedPosts _ c2) as [deleted c3].
    unfold Outage.purgeCDNCache, Outage.attempt. rewrite Hcdn. simpl.
    apply Promise_all_rejected. right. apply in_or_app. right. by left.
  - unfold mbind, M_bind.
    destruct (Outage.bumpVersion fails "posts:detail" context) as [t1 c1].
    destruct (Outage.bumpVersion fails "posts:list" c1) as [t2 c2].
    unfold Outage.purgeCDNCache, Outage.attempt. rewrite Hcdn. simpl.
    apply Promise_all_rejected. right. right. by left.
Qed.

(** A mutation on an empty queue whose invalidation fails: the promise
    settles rejected; when it is the first delete that failed, the cache
    and the counters are as before the request. *)
Lemma background_rejected (fails : Outage.Faults) (affectedPosts : list PostRef)
    (d : TagRepo.Db) (context : Context) :
  executionCtx context = [] ->
  (fails (CallDeleteKey TAGS_CACHE_KEYS_publicList) = true
   \/ forall urls, fails (CallPurgeCDN urls) = true) ->
  let background :=
    Outage.waitForBackgroundTasks fails (Outage.dispatched fails affectedPosts d context) in
  fst background = [Outage.Rejected]
  /\ (fails (CallDeleteKey TAGS_CACHE_KEYS_publicList) = true ->
      kv (snd background) = kv context /\ versions (snd background) = versions context).
Proof.
  intros Hq Hfails. cbv zeta.
  unfold Outage.waitForBackgroundTasks.
  rewrite (proj1 (proj2 (dispatched_under_faults fails affectedPosts d context))), Hq.
  cbn [app Outage.pushEach Outage.settle].
  unfold mbind, M_bind, mret, M_ret.
  destruct (fails (CallDeleteKey TAGS_CACHE_KEYS_publicList)) eqn:Efirst.
  - cbn [fst snd]. split; [reflexivity|]. intros _.
    unfold Outage.dispatched, Outage.deleteKey, Outage.attempt. by rewrite Efirst.
  - destruct Hfails as [Hfirst|Hcdn]; [discriminate|].
    pose proof (resumed_rejected_when_purge_fails fails affectedPosts
      (setExecutionCtx [] (Outage.dispatched fails affectedPosts d context)) Hcdn) as Hr.
    destruct (Outage.invalidateTagRelatedCache_resumed fails affectedPosts _) as [o c].
    cbn [fst snd] in *. subst o. split; [reflexivity|]. intros Habs. discriminate.
Qed.

(** Without failures the helper, the promise and the runner with calls
    that can fail are those of the service, every promise fulfilled. *)
Lemma pushEach_deleteKey_without_faults {A} (key : A -> string) (l : list A)
    (context : Context) :
  Outage.pushEach l (fun x => Outage.deleteKey Outage.noFaults (key x)) context
  = (map (fun _ => Outage.Fulfilled tt) l,
     snd (forEach l (fun x => CacheService.deleteKey (key x)) context)).
Proof.
  revert context. induction l as [|x l IH]; intros context; [done|].
  cbn [Outage.pushEach forEach]. unfold mbind, M_bind, mret, M_ret.
  change (Outage.deleteKey Outage.noFaults (key x) context)
    with (Outage.Fulfilled tt, snd (CacheService.deleteKey (key x) context)).
  change (CacheService.deleteKey (key x) context)
    with (tt, snd (CacheService.deleteKey (key x) context)).
  cbv iota beta. rewrite IH. reflexivity.
Qed.

Lemma Promise_all_fulfilled {A} (l : list A) :
  Outage.Promise_all
    (Outage.Fulfilled tt :: map (fun _ => Outage.Fulfilled tt) l ++ [Outage.Fulfilled tt])
  = Outage.Fulfilled tt.
Proof.
  unfold Outage.Promise_all. simpl.
  rewrite forallb_app. simpl. rewrite andb_true_r.
  assert (H : forallb Outage.isFulfilled (map (fun _ => Outage.Fulfilled tt) l) = true)
    by (by induction l).
  by rewrite H.
Qed.

Lemma resumed_without_faults (affectedPosts : list PostRef) (context : Context) :
  Outage.invalidateTagRelatedCache_resumed Outage.noFaults affectedPosts context
  = (Outage.Fulfilled tt,
     snd (TagService.invalidateTagRelatedCache_resumed affectedPosts context)).
Proof.
  destruct affectedPosts as [|p l]; [reflexivity|].
  unfold Outage.invalidateTagRelatedCache_resumed,
    TagService.invalidateTagRelatedCache_resumed.
  change (0 <? length (p :: l))%nat with true. cbv iota.
  unfold mbind, M_bind, Outage.awaiting, mbind, M_bind.
  change (Outage.bumpVersion Outage.noFaults "posts:list" context)
    with (Outage.Fulfilled tt, snd (CacheService.bumpVersion "posts:list" context)).
  change (CacheService.bumpVersion "posts:list" context)
    with (tt, snd (CacheService.bumpVersion "posts:list" context)).
  cbv iota beta. cbn [snd].
  set (c1 := snd (CacheService.bumpVersion "posts:list" context)).
  change (Outage.getVersion Outage.noFaults "posts:detail" c1)
    with (Outage.Fulfilled (fst (CacheService.getVersion "posts:detail" c1)),
          snd (CacheService.getVersion "posts:detail" c1)).
  change (CacheService.getVersion "posts:detail" c1)
    with (fst (CacheService.getVersion "posts:detail" c1),
          snd (CacheService.getVersion "posts:detail" c1)).
  cbv iota beta.
  rewrite pushEach_deleteKey_without_faults.
  destruct (forEach (p :: l) _ _) as [[] c3]. cbn [snd].
  change (Outage.purgeCDNCache Outage.noFaults (TagService.cdnUrls (p :: l)) c3)
    with (Outage.Fulfilled tt,
          snd (Invalidate.purgeCDNCache (TagService.cdnUrls (p :: l)) c3)).
  cbv iota beta. unfold mret, M_ret.
  by rewrite Promise_all_fulfilled.
Qed.

Lemma invalidate_without_faults (affectedPosts : list PostRef) (context : Context) :
  Outage.invalidateTagRelatedCache Outage.noFaults affectedPosts context
  = (Outage.Fulfilled tt, snd (TagService.invalidateTagRelatedCache affectedPosts context)).
Proof.
  unfold Outage.invalidateTagRelatedCache, Outage.awaiting, mbind, M_bind.
  change (Outage.deleteKey Outage.noFaults TAGS_CACHE_KEYS_publicList context)
    with (Outage.Fulfilled tt,
          snd (CacheService.deleteKey TAGS_CACHE_KEYS_publicList context)).
  cbv iota beta. by rewrite resumed_without_faults, invalidate_unfold.
Qed.

Lemma called_then_settled_under_faults (fails : Outage.Faults)
    (affectedPosts : list PostRef) (context : Context) :
  (promise ← Outage.invalidateTagRelatedCache_called fails affectedPosts ;
   Outage.settle fails promise) context
  = Outage.invalidateTagRelatedCache fails affectedPosts context.
Proof.
  unfold Outage.invalidateTagRelatedCache_called, Outage.invalidateTagRelatedCache,
    Outage.awaiting, Outage.settle, Outage.deleteKey, Outage.attempt,
    mbind, M_bind, mret, M_ret.
  by destruct (fails (CallDeleteKey TAGS_CACHE_KEYS_publicList)).
Qed.

Lemma settle_all_without_faults (jobs : list Job) (context : Context) :
  Outage.pushEach jobs (Outage.settle Outage.noFaults) context
  = (map (fun _ => Outage.Fulfilled tt) jobs, snd (forEach jobs Runtime.settle context)).
Proof.
  revert context. induction jobs as [|[posts] jobs IH]; intros context; [done|].
  simpl. unfold mbind, M_bind, mret, M_ret.
  rewrite resumed_without_faults.
  destruct (TagService.invalidateTagRelatedCache_resumed posts context) as [[] c].
  cbn [snd]. by rewrite IH.
Qed.

(** C5.  Let any calls to the cache and the CDN fail.  The promise of
    [updateTag] and of [deleteTag] still fulfils, and with the same
    response and the same store for any two contexts that agree on the
    store, whatever their caches, version counters, call logs and pending
    promises are and whichever calls fail; without failures these are the
    endpoints and the background runner of the service.  When the tag
    exists and its new name is
    free, the store is written first; on return the helper has been
    called, which started its delete of the public list key and no more:
    no version has changed, nothing has been awaited, and the promise is
    the last of the queue.  When that promise rejects, because that delete
    or the purge fails, the rejection is the runtime's to see: the
    response is the one above. *)
Theorem mutation_response_ignores_invalidation :
  (forall (data : UpdateTagInput) (context : Context),
      Outage.updateTag Outage.noFaults data context
      = (Outage.Fulfilled (fst (TagService.updateTag data context)),
         snd (TagService.updateTag data context)))
  /\ (forall (data : DeleteTagInput) (context : Context),
      Outage.deleteTag Outage.noFaults data context
      = (Outage.Fulfilled tt, snd (TagService.deleteTag data context)))
  /\ (forall context : Context,
      Outage.waitForBackgroundTasks Outage.noFaults context
      = (map (fun _ => Outage.Fulfilled tt) (executionCtx context),
         Runtime.waitForBackgroundTasks context))
  /\ (forall (fails1 fails2 : Outage.Faults) (d : TagRepo.Db)
             (m1 m2 : gmap string Entry) (vs1 vs2 : gmap string N)
             (log1 log2 : list Call) (q1 q2 : list Job),
      let c1 := mkContext d m1 vs1 log1 q1 in
      let c2 := mkContext d m2 vs2 log2 q2 in
      (forall data : UpdateTagInput,
          fst (Outage.updateTag fails1 data c1) = fst (Outage.updateTag fails2 data c2)
          /\ Outage.isFulfilled (fst (Outage.updateTag fails1 data c1)) = true
          /\ db (snd (Outage.updateTag fails1 data c1))
             = db (snd (Outage.updateTag fails2 data c2)))
      /\ (forall data : DeleteTagInput,
          fst (Outage.deleteTag fails1 data c1) = Outage.Fulfilled tt
          /\ db (snd (Outage.deleteTag fails1 data c1))
             = db (snd (Outage.deleteTag fails2 data c2))))
  /\ (forall (fails : Outage.Faults) (data : UpdateTagInput) (context : Context)
             (existingTag : Tag),
      TagRepo.findTagById (db context) (upd_id data) = Some existingTag ->
      nameConflict (db context) data existingTag = false ->
      let affected := TagRepo.getPublishedPostsByTagId (db context) (upd_id data) in
      let written := TagRepo.updateTag (db context) (upd_id data) (upd_data data) in
      let returned := snd (Outage.updateTag fails data context) in
      fst (Outage.updateTag fails data context) = Outage.Fulfilled (ok (fst written))
      /\ db returned = snd written
      /\ executionCtx returned = executionCtx context ++ [InvalidateTagRelatedCache affected]
      /\ calls returned = calls context ++ [CallDeleteKey TAGS_CACHE_KEYS_publicList]
      /\ versions returned = versions context
      /\ (executionCtx context = [] ->
          (fails (CallDeleteKey TAGS_CACHE_KEYS_publicList) = true
           \/ forall urls, fails (CallPurgeCDN urls) = true) ->
          fst (Outage.waitForBackgroundTasks fails returned) = [Outage.Rejected]
          /\ (fails (CallDeleteKey TAGS_CACHE_KEYS_publicList) = true ->
              kv (snd (Outage.waitForBackgroundTasks fails returned)) = kv context
              /\ versions (snd (Outage.waitForBackgroundTasks fails returned))
                 = versions context)))
  /\ (forall (fails : Outage.Faults) (data : DeleteTagInput) (context : Context) (tag : Tag),
      TagRepo.findTagById (db context) (del_id data) = Some tag ->
      let affected := TagRepo.getPublishedPostsByTagId (db context) (del_id data) in
      let returned := snd (Outage.deleteTag fails data context) in
      fst (Outage.deleteTag fails data context) = Outage.Fulfilled tt
      /\ db returned = TagRepo.deleteTag (db context) (del_id data)
      /\ executionCtx returned = executionCtx context ++ [InvalidateTagRelatedCache affected]
      /\ calls returned = calls context ++ [CallDeleteKey TAGS_CACHE_KEYS_publicList]
      /\ versions returned = versions context
      /\ (executionCtx context = [] ->
          (fails (CallDeleteKey TAGS_CACHE_KEYS_publicList) = true
           \/ forall urls, fails (CallPurgeCDN urls) = true) ->
          fst (Outage.waitForBackgroundTasks fails returned) = [Outage.Rejected]
          /\ (fails (CallDeleteKey TAGS_CACHE_KEYS_publicList) = true ->
              kv (snd (Outage.waitForBackgroundTasks fails returned)) = kv context
              /\ versions (snd (Outage.waitForBackgroundTasks fails returned))
                 = versions context))).
Proof.
  split; [|split; [|split; [|split; [|split]]]].
  - intros data context. rewrite updateTag_under_faults, updateTag_outcome.
    destruct (TagRepo.findTagById (db context) (upd_id data)) as [existingTag|]; [|done].
    by destruct (nameConflict (db context) data existingTag).
  - intros data context. rewrite deleteTag_under_faults, deleteTag_outcome.
    by destruct (TagRepo.findTagById (db context) (del_id data)).
  - intros context. apply settle_all_without_faults.
  - intros fails1 fails2 d m1 m2 vs1 vs2 log1 log2 q1 q2 c1 c2. subst c1 c2.
    split; intros data.
    + rewrite !updateTag_under_faults. cbn [db].
      destruct (TagRepo.findTagById d (upd_id data)) as [existingTag|]; [|done].
      destruct (nameConflict d data existingTag); [done|]. cbn [fst snd].
      do 2 (split; [reflexivity|]).
      by rewrite !(proj1 (dispatched_under_faults _ _ _ _)).
    + rewrite !deleteTag_under_faults. cbn [db].
      destruct (TagRepo.findTagById d (del_id data)); [|done]. cbn [fst snd].
      split; [reflexivity|].
      by rewrite !(proj1 (dispatched_under_faults _ _ _ _)).
  - intros fails data context existingTag Hfound Hfree. cbv zeta.
    rewrite updateTag_under_faults, Hfound, Hfree. cbn [fst snd].
    destruct (dispatched_under_faults fails
      (TagRepo.getPublishedPostsByTagId (db context) (upd_id data))
      (snd (TagRepo.updateTag (db context) (upd_id data) (upd_data data))) context)
      as (Hdb & Hqueue & Hcalls & Hversions).
    do 5 (split; [done|]).
    intros Hq Hfails. by apply background_rejected.
  - intros fails data context tag Hfound. cbv zeta.
    rewrite deleteTag_under_faults, Hfound. cbn [fst snd].
    destruct (dispatched_under_faults fails
      (TagRepo.getPublishedPostsByTagId (db context) (del_id data))
      (TagRepo.deleteTag (db context) (del_id data)) context)
      as (Hdb & Hqueue & Hcalls & Hversions).
    do 5 (split; [done|]).
    intros Hq Hfails. by apply background_rejected.
Qed.

Lemma mutation_response_ignores_invalidation_witness :
  let rename := mkUpdateTagInput 1 (mkUpdateTagData (Some "coq")) in
  let returned := snd (Outage.updateTag Outage.outage rename Sample.warmed) in
  TagRepo.findTagById (db Sample.warmed) 1 = Some (mkTag 1 "rocq" 10)
  /\ nameConflict (db Sample.warmed) rename (mkTag 1 "rocq" 10) = false
  /\ fst (Outage.updateTag Outage.outage rename Sample.warmed)
     = Outage.Fulfilled (ok (Some (mkTag 1 "coq" 10)))
  /\ fst (Outage.waitForBackgroundTasks Outage.outage returned) = [Outage.Rejected]
  /\ kv (snd (Outage.waitForBackgroundTasks Outage.outage returned)) = kv Sample.warmed.
Proof.
  intros rename returned. split; [reflexivity|]. split; [reflexivity|].
  pose proof (proj1 (proj2 (proj2 (proj2 (proj2 mutation_response_ignores_invalidation))))
    Outage.outage rename Sample.warmed (mkTag 1 "rocq" 10) eq_refl eq_refl)
    as (Hresponse & _ & _ & _ & _ & Hbackground).
  split; [exact Hresponse|].
  destruct (Hbackground eq_refl (or_introl eq_refl)) as (Hrejected & Hstale).
  split; [exact Hrejected|]. exact (proj1 (Hstale eq_refl)).
Defined.

(** ** Creating a tag *)

Lemma nameExists_of_member (d : TagRepo.Db) (existing : Tag) :
  In existing (TagRepo.tags d) ->
  TagRepo.nameExists d (tag_name existing) None = true.
Proof.
  intros Hin. unfold TagRepo.nameExists. apply existsb_exists.
  exists existing. split; [exact Hin|]. by rewrite String.eqb_refl.
Qed.

(** C6.  When the store holds a tag named X, [createTag] with the name X
    returns the error outcome for a name that already exists and leaves
    the context, the store with it, as it was: no row is inserted. *)
Theorem createTag_rejects_duplicate_name
    (data : CreateTagInput) (context : Context) (existing : Tag) :
  In existing (TagRepo.tags (db context)) ->
  tag_name existing = create_name data ->
  TagService.createTag data context = (err TAG_NAME_ALREADY_EXISTS, context).
Proof.
  intros Hin Hname. destruct context as [d m vs log q]. simpl in Hin.
  run. rewrite <- Hname. by rewrite (nameExists_of_member d existing Hin).
Qed.

Lemma createTag_rejects_duplicate_name_witness :
  let dup := mkCreateTagInput "dup-tag" in
  let once := snd (TagService.createTag dup Sample.fresh) in
  fst (TagService.createTag dup Sample.fresh) = ok (mkTag 3 "dup-tag" 100)
  /\ In (mkTag 3 "dup-tag" 100) (TagRepo.tags (db once))
  /\ TagService.createTag dup once = (err TAG_NAME_ALREADY_EXISTS, once).
Proof.
  intros dup once. split; [reflexivity|].
  assert (Hin : In (mkTag 3 "dup-tag" 100) (TagRepo.tags (db once))).
  { simpl. right. right. left. reflexivity. }
  split; [exact Hin|].
  exact (createTag_rejects_duplicate_name dup once (mkTag 3 "dup-tag" 100) Hin eq_refl).
Defined.

(** ** Cached reads *)

Lemma public_list_schema_encode (l w : list TagWithCount) :
  z_array TagWithCountSchema (array_encode TagWithCount_encode l) = Some w -> w = l.
Proof.
  unfold z_array, array_encode.
  assert (H : mapM TagWithCountSchema (map TagWithCount_encode l) = Some l).
  { induction l as [|t l IH]; [done|].
    destruct t as [i n c p]. simpl in *. by rewrite IH. }
  rewrite H. congruence.
Qed.

Section CachedRead.

Variable T : Type.
Variable schema : Json -> option T.
Variable encode : T -> Json.

(** What a successful [get] leaves under the key reads back through the
    schema; it reads back as the returned value when the schema reads a
    payload written for a value as that value. *)
Lemma get_leaves_entry (key : string) (compute : Context -> option T) (ttl : string)
    (context context1 : Context) (value : T) :
  CacheService.get key schema encode compute ttl context = (Some value, context1) ->
  exists served,
    CacheService.cached context1 key schema = Some served
    /\ ((forall v w : T, schema (encode v) = Some w -> w = v) -> served = value).
Proof.
  unfold CacheService.get.
  destruct (CacheService.cached context key schema) as [v|] eqn:Ehit.
  - intros [= <- <-]. by exists v.
  - destruct (compute (issue (CallCompute key) context)) as [v|]; [|discriminate].
    destruct (schema (encode v)) as [w|] eqn:Evalid; [|discriminate].
    intros [= <- <-]. exists w. split.
    + unfold CacheService.cached, CacheService.getRaw, CacheService.set.
      simpl. rewrite lookup_insert_eq. simpl. exact Evalid.
    + intros Hfaithful. by apply Hfaithful.
Qed.

Lemma get_again (key : string) (compute compute' : Context -> option T) (ttl ttl' : string)
    (context context1 context2 : Context) (value : T) :
  CacheService.get key schema encode compute ttl context = (Some value, context1) ->
  kv context2 !! key = kv context1 !! key ->
  exists served,
    CacheService.get key schema encode compute' ttl' context2 = (Some served, context2)
    /\ CacheService.cached context1 key schema = Some served
    /\ ((forall v w : T, schema (encode v) = Some w -> w = v) -> served = value).
Proof.
  intros Hfirst Hsame.
  destruct (get_leaves_entry _ _ _ _ _ _ Hfirst) as (served & Hcached & Hvalue).
  exists served. split; [|by split].
  assert (Hhit : CacheService.cached context2 key schema = Some served).
  { unfold CacheService.cached, CacheService.getRaw in *. by rewrite Hsame. }
  unfold CacheService.get. by rewrite Hhit.
Qed.

End CachedRead.

(** C7.  After a call of [CacheService.get] has returned a value, a second
    call for the same key, on any context in which the entry under the key
    is still the one the first call left, is served from the cache: the
    context is untouched and the call-count probe shows that [compute] was
    not called again, so at most once.  The value served is the one the
    first call returned whenever the schema reads a written payload as the
    value written; for [getPublicTags] it always is. *)
Theorem second_get_served_from_cache :
  (forall (T : Type) (schema : Json -> option T) (encode : T -> Json)
          (key : string) (compute compute' : Context -> option T) (ttl ttl' : string)
          (context context1 context2 : Context) (value : T),
      CacheService.get key schema encode compute ttl context = (Some value, context1) ->
      kv context2 !! key = kv context1 !! key ->
      let second := CacheService.get key schema encode compute' ttl' context2 in
      snd second = context2
      /\ computations key (calls (snd second)) = computations key (calls context2)
      /\ (computations key (calls (snd second)) <= computations key (calls context2) + 1)%nat
      /\ fst second = CacheService.cached context1 key schema
      /\ ((forall v w : T, schema (encode v) = Some w -> w = v) -> fst second = Some value))
  /\ (forall (context context1 context2 : Context) (value : list TagWithCount),
      TagService.getPublicTags context = (Some value, context1) ->
      kv context2 !! TAGS_CACHE_KEYS_publicList = kv context1 !! TAGS_CACHE_KEYS_publicList ->
      TagService.getPublicTags context2 = (Some value, context2)
      /\ computations TAGS_CACHE_KEYS_publicList
           (calls (snd (TagService.getPublicTags context2)))
         = computations TAGS_CACHE_KEYS_publicList (calls context2)).
Proof.
  split.
  - intros T schema encode key compute compute' ttl ttl' context context1 context2 value
      Hfirst Hsame second. subst second.
    destruct (get_again T schema encode key compute compute' ttl ttl' _ _ _ _ Hfirst Hsame)
      as (served & -> & Hcached & Hvalue).
    simpl. repeat split; [lia|by rewrite Hcached|].
    intros Hfaithful. f_equal. by apply Hvalue.
  - intros context context1 context2 value Hfirst Hsame.
    unfold TagService.getPublicTags in *.
    destruct (get_again _ _ _ _ _
      (fun context => Some (TagRepo.getAllTagsWithCount (db context)
         (mkGetTagsInput (Some ByPostCount) (Some Desc) None (Some true))))
      _ "7d" _ _ _ _ Hfirst Hsame) as (served & Hsecond & _ & Hvalue).
    rewrite Hsecond. simpl. split; [|done].
    f_equal. f_equal. apply Hvalue. intros v w. apply public_list_schema_encode.
Qed.

Lemma second_get_served_from_cache_witness :
  fst (TagService.getPublicTags Sample.fresh)
    = Some [mkTagWithCount 1 "rocq" 10 1; mkTagWithCount 2 "ocaml" 11 0]
  /\ computations TAGS_CACHE_KEYS_publicList (calls Sample.warmed) = 1%nat
  /\ TagService.getPublicTags Sample.warmed
     = (Some [mkTagWithCount 1 "rocq" 10 1; mkTagWithCount 2 "ocaml" 11 0], Sample.warmed).
Proof.
  split; [reflexivity|]. split; [reflexivity|].
  exact (proj1 (proj2 second_get_served_from_cache Sample.fresh Sample.warmed Sample.warmed
    [mkTagWithCount 1 "rocq" 10 1; mkTagWithCount 2 "ocaml" 11 0] eq_refl eq_refl)).
Defined.

(** ** Version counters over a history *)

Lemma versionsGrow_refl (c : Context) : versionsGrow c c.
Proof. intros namespace. lia. Qed.

Lemma versionsGrow_trans (c1 c2 c3 : Context) :
  versionsGrow c1 c2 -> versionsGrow c2 c3 -> versionsGrow c1 c3.
Proof. intros H12 H23 namespace. specialize (H12 namespace). specialize (H23 namespace). lia. Qed.

Lemma versionsGrow_same (c c' : Context) :
  versions c' = versions c -> versionsGrow c c'.
Proof. intros Heq namespace. unfold CacheService.currentVersion. rewrite Heq. lia. Qed.

Lemma versionsGrow_bump (bumped : string) (c c' : Context) :
  versions c' = <[bumped := N.succ (CacheService.currentVersion c bumped)]> (versions c) ->
  versionsGrow c c'.
Proof.
  intros Heq namespace. unfold CacheService.currentVersion in *. rewrite Heq.
  destruct (decide (bumped = namespace)) as [->|Hne].
  - rewrite lookup_insert_eq. simpl. lia.
  - rewrite lookup_insert_ne by done. lia.
Qed.

Lemma invalidate_versionsGrow (affectedPosts : list PostRef) (c : Context) :
  versionsGrow c (snd (TagService.invalidateTagRelatedCache affectedPosts c)).
Proof.
  destruct affectedPosts as [|p l].
  - rewrite invalidate_conservative. cbn [snd].
    apply versionsGrow_trans with
      (setVersions
         (<["posts:detail" := N.succ (CacheService.currentVersion c "posts:detail")]>
            (versions c)) c).
    + by apply versionsGrow_bump with "posts:detail".
    + by apply versionsGrow_bump with "posts:list".
  - rewrite invalidate_precise by discriminate. cbn [snd].
    by apply versionsGrow_bump with "posts:list".
Qed.

Lemma resumed_versionsGrow (affectedPosts : list PostRef) (c : Context) :
  versionsGrow c (snd (TagService.invalidateTagRelatedCache_resumed affectedPosts c)).
Proof.
  destruct affectedPosts as [|p l].
  - rewrite resumed_conservative. cbn [snd].
    apply versionsGrow_trans with
      (setVersions
         (<["posts:detail" := N.succ (CacheService.currentVersion c "posts:detail")]>
            (versions c)) c).
    + by apply versionsGrow_bump with "posts:detail".
    + by apply versionsGrow_bump with "posts:list".
  - rewrite resumed_precise by discriminate. cbn [snd].
    by apply versionsGrow_bump with "posts:list".
Qed.

Lemma settle_all_versionsGrow (jobs : list Job) (c : Context) :
  versionsGrow c (snd (forEach jobs Runtime.settle c)).
Proof.
  revert c. induction jobs as [|[posts] jobs IH]; intros c.
  - apply versionsGrow_refl.
  - simpl. unfold mbind, M_bind.
    pose proof (resumed_versionsGrow posts c) as Hstep.
    destruct (TagService.invalidateTagRelatedCache_resumed posts c) as [[] c1].
    eapply versionsGrow_trans; [exact Hstep|apply IH].
Qed.

Lemma getPublicTags_versions (c : Context) :
  versions (snd (TagService.getPublicTags c)) = versions c.
Proof.
  unfold TagService.getPublicTags, CacheService.get.
  destruct (CacheService.cached c _ _); [done|].
  cbv zeta.
  destruct (z_array TagWithCountSchema _); done.
Qed.

Lemma perform_versionsGrow (op : Op) (c : Context) : versionsGrow c (perform op c).
Proof.
  destruct op; simpl.
  - by apply versionsGrow_same.
  - by apply versionsGrow_same.
  - by apply versionsGrow_bump with namespace.
  - by apply versionsGrow_same.
  - by apply versionsGrow_same.
  - apply invalidate_versionsGrow.
  - apply versionsGrow_same, getPublicTags_versions.
  - apply versionsGrow_same. destruct c as [d m vs log q]. run.
    by destruct (TagRepo.nameExists d (create_name data) None).
  - apply versionsGrow_same. rewrite updateTag_outcome.
    destruct (TagRepo.findTagById (db c) (upd_id data)) as [t|]; [|done].
    by destruct (nameConflict (db c) data t).
  - apply versionsGrow_same. rewrite deleteTag_outcome.
    by destruct (TagRepo.findTagById (db c) (del_id data)).
  - by apply versionsGrow_same.
  - unfold Runtime.waitForBackgroundTasks.
    eapply versionsGrow_trans; [|apply settle_all_versionsGrow].
    by apply versionsGrow_same.
Qed.

(** C8.  Over any history of cache calls, service requests and settled
    background promises, the version read for a namespace never goes
    down; a bump raises it by one and nothing lowers it; a counter that is
    absent reads as 0. *)
Theorem version_never_decreases (namespace : string) :
  (forall (ops : list Op) (context : Context),
      (fst (CacheService.getVersion namespace context)
       <= fst (CacheService.getVersion namespace (performAll ops context)))%N)
  /\ (forall context : Context,
      fst (CacheService.getVersion namespace
             (snd (CacheService.bumpVersion namespace context)))
      = N.succ (fst (CacheService.getVersion namespace context)))
  /\ (forall (d : TagRepo.Db) (m : gmap string Entry) (vs : gmap string N)
             (log : list Call) (q : list Job),
      fst (CacheService.getVersion namespace
             (mkContext d m (delete namespace vs) log q)) = 0%N).
Proof.
  split; [|split].
  - intros ops. induction ops as [|op ops IH]; intros context; simpl.
    + lia.
    + specialize (IH (perform op context)). simpl in IH.
      pose proof (perform_versionsGrow op context namespace). lia.
  - intros context. simpl. unfold CacheService.currentVersion at 1. simpl.
    by rewrite lookup_insert_eq.
  - intros d m vs log q. simpl. unfold CacheService.currentVersion. simpl.
    by rewrite lookup_delete_eq.
Qed.

(** ** Ordering of a plain tag list *)

Global Instance name_order_total (dir : SortDir) :
  Total (TagRepo.holds (TagRepo.directed dir (TagRepo.tagLe TagByName))).
Proof.
  intros a b. unfold TagRepo.holds, TagRepo.tagLe. destruct dir; simpl.
  - apply String.leb_total.
  - apply String.leb_total.
Qed.

(** C9.  Asked to sort by post count without counts, [getTags] queries the
    plain tag list by name instead: what it returns is the list of all
    tags ordered by name in the requested direction, none with a count. *)
Theorem getTags_postCount_without_counts_sorts_by_name
    (context : Context) (data : GetTagsInput) :
  in_sortBy data = Some ByPostCount ->
  default false (in_withCount data) = false ->
  let sortDir := default Asc (in_sortDir data) in
  let result := TagRepo.getAllTags (db context) TagByName sortDir in
  TagService.getTags context data = map inl result
  /\ Sorted (nameOrdered sortDir) result
  /\ result ≡ₚ TagRepo.tags (db context).
Proof.
  intros Hby Hcount sortDir result. split; [|split].
  - unfold TagService.getTags. by rewrite Hby, Hcount.
  - subst result. unfold TagRepo.getAllTags, TagRepo.orderBy.
    pose proof (Sorted_merge_sort
      (TagRepo.holds (TagRepo.directed sortDir (TagRepo.tagLe TagByName)))
      (TagRepo.tags (db context))) as Hsorted.
    destruct sortDir; exact Hsorted.
  - subst result. unfold TagRepo.getAllTags, TagRepo.orderBy.
    apply merge_sort_Permutation.
Qed.

Lemma getTags_postCount_without_counts_sorts_by_name_witness :
  let data := mkGetTagsInput (Some ByPostCount) (Some Asc) (Some false) None in
  in_sortBy data = Some ByPostCount
  /\ default false (in_withCount data) = false
  /\ TagService.getTags Sample.fresh data
     = [inl (mkTag 2 "ocaml" 11); inl (mkTag 1 "rocq" 10)].
Proof.
  intros data. split; [reflexivity|]. split; [reflexivity|].
  exact (proj1 (getTags_postCount_without_counts_sorts_by_name Sample.fresh data
    eq_refl eq_refl)).
Defined.

(** ** The name check of an update *)

Lemma nameExists_excluding (d : TagRepo.Db) (name : string) (id : Z) :
  TagRepo.nameExists d name (Some id) = true <->
  exists other, In other (TagRepo.tags d) /\ tag_id other <> id /\ tag_name other = name.
Proof.
  unfold TagRepo.nameExists. rewrite existsb_exists. split.
  - intros (t & Hin & Htest). apply andb_true_iff in Htest as [Hname Hid].
    exists t. split; [exact Hin|]. split.
    + apply negb_true_iff in Hid. by apply Z.eqb_neq.
    + by apply String.eqb_eq.
  - intros (t & Hin & Hid & Hname). exists t. split; [exact Hin|].
    apply andb_true_iff. split.
    + by apply String.eqb_eq.
    + apply negb_true_iff. by apply Z.eqb_neq.
Qed.

(** C10.  For an existing tag, an update that carries no name, or the
    name the tag already has, goes through without the uniqueness check,
    whatever names the other tags have; the error for a name that already
    exists is returned exactly when the new name is non-empty, differs
    from the current one and is the name of another tag. *)
Theorem updateTag_checks_only_a_changed_name
    (data : UpdateTagInput) (context : Context) (existingTag : Tag) :
  TagRepo.findTagById (db context) (upd_id data) = Some existingTag ->
  (upd_name (upd_data data) = None
   \/ upd_name (upd_data data) = Some (tag_name existingTag) ->
   TagService.updateTag data context = committed data context
   /\ fst (TagService.updateTag data context) <> err TAG_NAME_ALREADY_EXISTS)
  /\ (fst (TagService.updateTag data context) = err TAG_NAME_ALREADY_EXISTS <->
      exists name,
        upd_name (upd_data data) = Some name
        /\ name <> "" /\ name <> tag_name existingTag
        /\ exists other,
             In other (TagRepo.tags (db context))
             /\ tag_id other <> upd_id data /\ tag_name other = name).
Proof.
  intros Hfound. rewrite updateTag_outcome, Hfound. split.
  - intros Hsame.
    assert (Hno : nameConflict (db context) data existingTag = false).
    { unfold nameConflict. destruct Hsame as [-> | ->]; [done|].
      rewrite String.eqb_refl. simpl. by rewrite andb_false_r. }
    rewrite Hno. split; [done|]. unfold committed. simpl. discriminate.
  - unfold nameConflict.
    destruct (upd_name (upd_data data)) as [name|].
    + destruct (TagService.truthy name && negb (String.eqb name (tag_name existingTag))
                && TagRepo.nameExists (db context) name (Some (upd_id data))) eqn:E.
      * split; [intros _|done].
        apply andb_true_iff in E as [E Hexists].
        apply andb_true_iff in E as [Htruthy Hdiff].
        exists name. split; [done|]. split.
        { unfold TagService.truthy in Htruthy. apply negb_true_iff in Htruthy.
          by apply String.eqb_neq. }
        split.
        { apply negb_true_iff in Hdiff. by apply String.eqb_neq. }
        by apply nameExists_excluding.
      * split; [unfold committed; simpl; discriminate|].
        intros (name' & [= <-] & Hnonempty & Hdiff & Hother).
        apply nameExists_excluding in Hother.
        apply String.eqb_neq in Hnonempty, Hdiff.
        unfold TagService.truthy in E. by rewrite Hnonempty, Hdiff, Hother in E.
    + split; [unfold committed; simpl; discriminate|].
      by intros (name & Hname & _).
Qed.

Lemma updateTag_checks_only_a_changed_name_witness :
  let same := mkUpdateTagInput 1 (mkUpdateTagData (Some "rocq")) in
  let taken := mkUpdateTagInput 1 (mkUpdateTagData (Some "ocaml")) in
  TagRepo.findTagById (db Sample.fresh) 1 = Some (mkTag 1 "rocq" 10)
  /\ fst (TagService.updateTag same Sample.fresh) = ok (Some (mkTag 1 "rocq" 10))
  /\ fst (TagService.updateTag taken Sample.fresh) = err TAG_NAME_ALREADY_EXISTS.
Proof.
  intros same taken. split; [reflexivity|]. split.
  - exact (f_equal fst (proj1 (proj1
      (updateTag_checks_only_a_changed_name same Sample.fresh (mkTag 1 "rocq" 10) eq_refl)
      (or_intror eq_refl)))).
  - apply (proj2 (updateTag_checks_only_a_changed_name taken Sample.fresh
      (mkTag 1 "rocq" 10) eq_refl)).
    exists "ocaml". split; [reflexivity|]. split; [discriminate|]. split; [discriminate|].
    exists (mkTag 2 "ocaml" 11). split; [simpl; auto|]. split; [discriminate|reflexivity].
Defined.

(** * Further properties of the service *)

Import Flow.

(** ** Requests that name no tag *)

(** X1.  An update reports an unknown tag exactly when no tag has the id, and
    an update that ends in an error, of either kind, leaves the whole
    context as it was: the store is not written and nothing is queued. *)
Theorem updateTag_reports_unknown_tag (data : UpdateTagInput) (context : Context) :
  (fst (TagService.updateTag data context) = err TAG_NOT_FOUND <->
   TagRepo.findTagById (db context) (upd_id data) = None)
  /\ (forall reason,
        fst (TagService.updateTag data context) = err reason ->
        snd (TagService.updateTag data context) = context).
Proof.
  rewrite updateTag_outcome.
  destruct (TagRepo.findTagById (db context) (upd_id data)) as [existingTag|].
  - destruct (nameConflict (db context) data existingTag); simpl.
    + split; [split; discriminate|done].
    + split; [split; discriminate|]. intros reason. discriminate.
  - simpl. split; [done|done].
Qed.

Lemma updateTag_reports_unknown_tag_witness :
  let data := mkUpdateTagInput 7 (mkUpdateTagData (Some "coq")) in
  TagRepo.findTagById (db Sample.warmed) 7 = None
  /\ TagService.updateTag data Sample.warmed = (err TAG_NOT_FOUND, Sample.warmed).
Proof.
  intros data. split; [reflexivity|].
  pose proof (proj2 (proj1 (updateTag_reports_unknown_tag data Sample.warmed)) eq_refl) as Hr.
  pose proof (proj2 (updateTag_reports_unknown_tag data Sample.warmed) TAG_NOT_FOUND Hr) as Hc.
  rewrite (surjective_pairing (TagService.updateTag data Sample.warmed)).
  by rewrite Hr, Hc.
Defined.

Lemma findTagById_after_delete (d : TagRepo.Db) (id : Z) :
  TagRepo.findTagById (TagRepo.deleteTag d id) id = None.
Proof.
  unfold TagRepo.findTagById, TagRepo.deleteTag. simpl.
  induction (TagRepo.tags d) as [|t l IH]; [done|].
  simpl. destruct (tag_id t =? id) eqn:E; simpl; [exact IH|].
  by rewrite E.
Qed.

(** X2.  Deleting a tag that does not exist does nothing at all: no store
    write, no invalidation queued.  So a second delete of the same tag is
    a no-op, and one delete queues one invalidation however often the
    request is repeated. *)
Theorem deleteTag_of_unknown_tag_does_nothing (data : DeleteTagInput) (context : Context) :
  (TagRepo.findTagById (db context) (del_id data) = None ->
   TagService.deleteTag data context = (tt, context))
  /\ (let once := snd (TagService.deleteTag data context) in
      TagService.deleteTag data once = (tt, once)).
Proof.
  split.
  - intros Hnone. by rewrite deleteTag_outcome, Hnone.
  - cbv zeta. rewrite (deleteTag_outcome data context).
    destruct (TagRepo.findTagById (db context) (del_id data)) as [tag|] eqn:E.
    + cbn [snd]. rewrite deleteTag_outcome.
      change (db (dispatched
        (TagRepo.getPublishedPostsByTagId (db context) (del_id data))
        (TagRepo.deleteTag (db context) (del_id data)) context))
        with (TagRepo.deleteTag (db context) (del_id data)).
      by rewrite findTagById_after_delete.
    + cbn [snd]. by rewrite deleteTag_outcome, E.
Qed.

Lemma deleteTag_of_unknown_tag_does_nothing_witness :
  TagRepo.findTagById (db Sample.warmed) 7 = None
  /\ TagService.deleteTag (mkDeleteTagInput 7) Sample.warmed = (tt, Sample.warmed)
  /\ executionCtx
       (snd (TagService.deleteTag (mkDeleteTagInput 1)
          (snd (TagService.deleteTag (mkDeleteTagInput 1) Sample.warmed))))
     = [InvalidateTagRelatedCache [mkPostRef 1 "hello"]].
Proof.
  split; [reflexivity|]. split.
  - exact (proj1 (deleteTag_of_unknown_tag_does_nothing (mkDeleteTagInput 7) Sample.warmed)
      eq_refl).
  - pose proof (proj2 (deleteTag_of_unknown_tag_does_nothing (mkDeleteTagInput 1)
      Sample.warmed)) as H.
    cbv zeta in H. by rewrite H.
Defined.

(** ** Creating a tag *)

Lemma nameExists_anywhere (d : TagRepo.Db) (name : string) :
  TagRepo.nameExists d name None = true <->
  exists existing, In existing (TagRepo.tags d) /\ tag_name existing = name.
Proof.
  unfold TagRepo.nameExists. rewrite existsb_exists. split.
  - intros (t & Hin & Htest). exists t. split; [exact Hin|].
    apply andb_true_iff in Htest as [Hname _]. by apply String.eqb_eq.
  - intros (t & Hin & Hname). exists t. split; [exact Hin|].
    apply andb_true_iff. split; [by apply String.eqb_eq|done].
Qed.

Lemma createTag_outcome (data : CreateTagInput) (context : Context) :
  TagService.createTag data context =
  if TagRepo.nameExists (db context) (create_name data) None
  then (err TAG_NAME_ALREADY_EXISTS, context)
  else (ok (fst (TagRepo.insertTag (db context) (create_name data))),
        setDb (snd (TagRepo.insertTag (db context) (create_name data))) context).
Proof.
  destruct context as [d m vs log q]. run.
  by destruct (TagRepo.nameExists d (create_name data) None).
Qed.

(** X3.  [createTag] fails exactly when some tag already has the name; its only
    error is the one for a name that already exists, never the one for an
    unknown tag; otherwise it returns the inserted row and the store holds
    the old rows followed by that row. *)
Theorem createTag_fails_exactly_on_a_taken_name (data : CreateTagInput) (context : Context) :
  ((exists reason, fst (TagService.createTag data context) = err reason) <->
   exists existing,
     In existing (TagRepo.tags (db context)) /\ tag_name existing = create_name data)
  /\ fst (TagService.createTag data context) <> err TAG_NOT_FOUND
  /\ ((forall existing, In existing (TagRepo.tags (db context)) ->
         tag_name existing <> create_name data) ->
      exists tag,
        fst (TagService.createTag data context) = ok tag
        /\ tag_name tag = create_name data
        /\ TagRepo.tags (db (snd (TagService.createTag data context)))
           = TagRepo.tags (db context) ++ [tag]).
Proof.
  rewrite createTag_outcome.
  destruct (TagRepo.nameExists (db context) (create_name data) None) eqn:E.
  - apply nameExists_anywhere in E. simpl. split; [|split].
    + split; [by intros _|]. intros _. by eexists.
    + discriminate.
    + intros Hfree. destruct E as (existing & Hin & Hname).
      by destruct (Hfree existing Hin).
  - simpl. split; [|split].
    + split.
      * intros [reason Hr]. discriminate.
      * intros Hex. apply nameExists_anywhere in Hex. congruence.
    + discriminate.
    + intros _. eexists. split; [reflexivity|]. by split.
Qed.

Lemma createTag_fails_exactly_on_a_taken_name_witness :
  let data := mkCreateTagInput "lean" in
  (forall existing, In existing (TagRepo.tags (db Sample.fresh)) ->
     tag_name existing <> create_name data)
  /\ exists tag,
       fst (TagService.createTag data Sample.fresh) = ok tag
       /\ tag_name tag = "lean"
       /\ TagRepo.tags (db (snd (TagService.createTag data Sample.fresh)))
          = [mkTag 1 "rocq" 10; mkTag 2 "ocaml" 11] ++ [tag].
Proof.
  intros data.
  assert (Hfree : forall existing, In existing (TagRepo.tags (db Sample.fresh)) ->
                    tag_name existing <> create_name data).
  { intros existing [<-|[<-|[]]]; discriminate. }
  split; [exact Hfree|].
  exact (proj2 (proj2 (createTag_fails_exactly_on_a_taken_name data Sample.fresh)) Hfree).
Defined.

(** The invalidation does not look at the store: settling the queued
    promises commutes with any write to it. *)
Lemma settle_all_setDb (jobs : list Job) (d : TagRepo.Db) (c : Context) :
  snd (forEach jobs Runtime.settle (setDb d c))
  = setDb d (snd (forEach jobs Runtime.settle c)).
Proof.
  revert c. induction jobs as [|[posts] jobs IH]; intros c; [done|].
  simpl. unfold mbind, M_bind.
  destruct posts as [|p l].
  - rewrite !resumed_conservative. cbn [db kv versions calls executionCtx].
    rewrite <- IH. reflexivity.
  - rewrite !resumed_precise by discriminate.
    cbn [db kv versions calls executionCtx]. rewrite <- IH. reflexivity.
Qed.

Lemma waitForBackgroundTasks_setDb (d : TagRepo.Db) (c : Context) :
  Runtime.waitForBackgroundTasks (setDb d c) = setDb d (Runtime.waitForBackgroundTasks c).
Proof.
  unfold Runtime.waitForBackgroundTasks.
  change (setExecutionCtx [] (setDb d c)) with (setDb d (setExecutionCtx [] c)).
  apply settle_all_setDb.
Qed.

(** X4.  [createTag] never touches the cache: whatever it returns, no key is
    deleted, no version bumped, no call issued and nothing handed to the
    background runner; the promises that were pending settle as they
    would have without the request. *)
Theorem createTag_leaves_the_cache_alone (data : CreateTagInput) (context : Context) :
  let context' := snd (TagService.createTag data context) in
  kv context' = kv context
  /\ versions context' = versions context
  /\ calls context' = calls context
  /\ executionCtx context' = executionCtx context
  /\ Runtime.waitForBackgroundTasks context'
     = setDb (db context') (Runtime.waitForBackgroundTasks context).
Proof.
  cbv zeta. rewrite createTag_outcome.
  destruct (TagRepo.nameExists (db context) (create_name data) None).
  - simpl. do 4 (split; [reflexivity|]).
    rewrite <- waitForBackgroundTasks_setDb. by destruct context.
  - simpl. do 4 (split; [reflexivity|]). apply waitForBackgroundTasks_setDb.
Qed.

(** X5.  Creating a tag and then creating it again: the second request is
    rejected for its name and changes nothing, whatever the store was. *)
Theorem createTag_twice_rejects_the_second
    (data : CreateTagInput) (context once : Context) (tag : Tag) :
  TagService.createTag data context = (ok tag, once) ->
  TagService.createTag data once = (err TAG_NAME_ALREADY_EXISTS, once)
  /\ In tag (TagRepo.tags (db once))
  /\ tag_name tag = create_name data.
Proof.
  rewrite createTag_outcome.
  destruct (TagRepo.nameExists (db context) (create_name data) None); [discriminate|].
  intros H. injection H as Htag Honce.
  assert (Hin : In tag (TagRepo.tags (db once))).
  { rewrite <- Htag, <- Honce. simpl. apply in_or_app. right. by left. }
  assert (Hname : tag_name tag = create_name data) by (by rewrite <- Htag).
  split; [|by split].
  rewrite createTag_outcome.
  assert (Htaken : TagRepo.nameExists (db once) (create_name data) None = true).
  { apply nameExists_anywhere. by exists tag. }
  by rewrite Htaken.
Qed.

Lemma createTag_twice_rejects_the_second_witness :
  let data := mkCreateTagInput "lean" in
  let once := snd (TagService.createTag data Sample.warmed) in
  TagService.createTag data Sample.warmed = (ok (mkTag 3 "lean" 100), once)
  /\ TagService.createTag data once = (err TAG_NAME_ALREADY_EXISTS, once).
Proof.
  intros data once. split; [reflexivity|].
  exact (proj1 (createTag_twice_rejects_the_second data Sample.warmed once
    (mkTag 3 "lean" 100) eq_refl)).
Defined.

(** ** What an invalidation touches *)

Lemma deleteAll_lookup_other keys (m : gmap string Entry) key :
  (forall k, In k keys -> k <> key) -> deleteAll keys m !! key = m !! key.
Proof.
  revert m. induction keys as [|k keys IH]; intros m Hother; simpl; [done|].
  rewrite IH by (intros k' Hin; apply Hother; by right).
  apply lookup_delete_ne, Hother. by left.
Qed.

Lemma invalidate_keeps_store_and_queue (affectedPosts : list PostRef) (context : Context) :
  db (snd (TagService.invalidateTagRelatedCache affectedPosts context)) = db context
  /\ executionCtx (snd (TagService.invalidateTagRelatedCache affectedPosts context))
     = executionCtx context.
Proof.
  destruct affectedPosts as [|p l].
  - by rewrite invalidate_conservative.
  - by rewrite invalidate_precise by discriminate.
Qed.

(** X6.  The invalidation helper never writes the store and never queues
    work; it changes no version counter but those of posts:list and
    posts:detail, and removes no key but the public list key and the
    detail keys of the affected posts at the version it read: entries of
    other posts, and entries of other generations, stay. *)
Theorem invalidation_touches_only_its_targets
    (affectedPosts : list PostRef) (context : Context) :
  let context' := snd (TagService.invalidateTagRelatedCache affectedPosts context) in
  db context' = db context
  /\ executionCtx context' = executionCtx context
  /\ (forall namespace,
        namespace <> "posts:list" -> namespace <> "posts:detail" ->
        CacheService.currentVersion context' namespace
        = CacheService.currentVersion context namespace)
  /\ (forall key,
        key <> TAGS_CACHE_KEYS_publicList ->
        (forall post, In post affectedPosts ->
           key <> POSTS_CACHE_KEYS_detail
                    (CacheService.currentVersion context "posts:detail") (ref_slug post)) ->
        kv context' !! key = kv context !! key).
Proof.
  cbv zeta. destruct affectedPosts as [|p l].
  - rewrite invalidate_conservative. cbn [snd db executionCtx kv].
    do 2 (split; [reflexivity|]). split.
    + intros namespace Hlist Hdetail. unfold CacheService.currentVersion.
      cbn [versions]. by rewrite !lookup_insert_ne by done.
    + intros key Hpublic _. by rewrite lookup_delete_ne.
  - rewrite invalidate_precise by discriminate. cbn [snd db executionCtx kv].
    do 2 (split; [reflexivity|]). split.
    + intros namespace Hlist Hdetail. unfold CacheService.currentVersion.
      cbn [versions]. by rewrite lookup_insert_ne by done.
    + intros key Hpublic Hother.
      rewrite deleteAll_lookup_other.
      * by rewrite lookup_delete_ne.
      * intros k Hin. apply in_map_iff in Hin as (post & <- & Hpost).
        intros Heq. by apply (Hother post Hpost).
Qed.

Lemma invalidation_touches_only_its_targets_witness :
  let stale := snd (CacheService.set "posts:detail:v3:hello" JNull "1h" Sample.warmed) in
  let context' := snd (TagService.invalidateTagRelatedCache [mkPostRef 1 "hello"] stale) in
  CacheService.getRaw context' "posts:detail:v3:hello" = Some JNull
  /\ CacheService.currentVersion context' "tags:list"
     = CacheService.currentVersion stale "tags:list".
Proof.
  intros stale context'.
  pose proof (invalidation_touches_only_its_targets [mkPostRef 1 "hello"] stale)
    as (_ & _ & Hversions & Hkeys).
  split.
  - unfold CacheService.getRaw. subst context'. rewrite Hkeys; [reflexivity|discriminate|].
    intros post [<-|[]]. by vm_compute.
  - apply Hversions; discriminate.
Defined.

(** ** A mutation and the invalidation it queues *)

Lemma invalidate_summary (affectedPosts : list PostRef) (context : Context) :
  let context' := snd (TagService.invalidateTagRelatedCache affectedPosts context) in
  calls context' =
    calls context ++ invalidationCalls affectedPosts
                       (CacheService.currentVersion context "posts:detail")
  /\ CacheService.currentVersion context' "posts:list"
     = N.succ (CacheService.currentVersion context "posts:list")
  /\ CacheService.currentVersion context' "posts:detail"
     = match affectedPosts with
       | [] => N.succ (CacheService.currentVersion context "posts:detail")
       | _ :: _ => CacheService.currentVersion context "posts:detail"
       end.
Proof.
  cbv zeta. destruct affectedPosts as [|p l].
  - rewrite invalidate_conservative. cbn [snd calls]. split; [reflexivity|].
    unfold CacheService.currentVersion. cbn [versions]. split.
    + rewrite lookup_insert_eq. by rewrite lookup_insert_ne by discriminate.
    + rewrite lookup_insert_ne by discriminate. by rewrite lookup_insert_eq.
  - rewrite invalidate_precise by discriminate. cbn [snd calls]. split; [reflexivity|].
    unfold CacheService.currentVersion. cbn [versions]. split.
    + by rewrite lookup_insert_eq.
    + by rewrite lookup_insert_ne by discriminate.
Qed.

Lemma waitForBackgroundTasks_db (c : Context) :
  db (Runtime.waitForBackgroundTasks c) = db c.
Proof.
  replace c with (setDb (db c) c) at 1 by (by destruct c).
  by rewrite waitForBackgroundTasks_setDb.
Qed.

(** A mutation on an empty queue, once its promise is settled. *)
Lemma settle_the_queued_invalidation
    (affectedPosts : list PostRef) (d : TagRepo.Db) (context : Context) :
  executionCtx context = [] ->
  let settled := Runtime.waitForBackgroundTasks (dispatched affectedPosts d context) in
  calls settled =
    calls context ++ invalidationCalls affectedPosts
                       (CacheService.currentVersion context "posts:detail")
  /\ CacheService.currentVersion settled "posts:list"
     = N.succ (CacheService.currentVersion context "posts:list")
  /\ CacheService.currentVersion settled "posts:detail"
     = match affectedPosts with
       | [] => N.succ (CacheService.currentVersion context "posts:detail")
       | _ :: _ => CacheService.currentVersion context "posts:detail"
       end
  /\ executionCtx settled = [].
Proof.
  intros Hq. cbv zeta.
  rewrite waitForBackgroundTasks_dispatched by exact Hq.
  pose proof (invalidate_summary affectedPosts (setDb d context)) as (Hcalls & Hlist & Hdetail).
  split; [exact Hcalls|]. split; [exact Hlist|]. split; [exact Hdetail|].
  rewrite (proj2 (invalidate_keeps_store_and_queue affectedPosts (setDb d context))).
  exact Hq.
Qed.

(** X7.  A rename that goes through, or the delete of an existing tag, on a
    context with no pending promise, settles as one run of the
    invalidation helper on the posts that were published under the tag
    before the write: the version of posts:list goes up by one on either
    path, the version of posts:detail goes up only when no post was
    affected, and the queue is empty afterwards. *)
Theorem tag_mutation_settles_as_one_invalidation (context : Context) :
  executionCtx context = [] ->
  (forall (data : UpdateTagInput) (tag : option Tag) (returned : Context),
      TagService.updateTag data context = (ok tag, returned) ->
      let affected := TagRepo.getPublishedPostsByTagId (db context) (upd_id data) in
      let settled := Runtime.waitForBackgroundTasks returned in
      calls settled =
        calls context ++ invalidationCalls affected
                           (CacheService.currentVersion context "posts:detail")
      /\ CacheService.currentVersion settled "posts:list"
         = N.succ (CacheService.currentVersion context "posts:list")
      /\ CacheService.currentVersion settled "posts:detail"
         = match affected with
           | [] => N.succ (CacheService.currentVersion context "posts:detail")
           | _ :: _ => CacheService.currentVersion context "posts:detail"
           end
      /\ executionCtx settled = [])
  /\ (forall (data : DeleteTagInput) (tag : Tag),
      TagRepo.findTagById (db context) (del_id data) = Some tag ->
      let affected := TagRepo.getPublishedPostsByTagId (db context) (del_id data) in
      let settled := Runtime.waitForBackgroundTasks (snd (TagService.deleteTag data context)) in
      calls settled =
        calls context ++ invalidationCalls affected
                           (CacheService.currentVersion context "posts:detail")
      /\ CacheService.currentVersion settled "posts:list"
         = N.succ (CacheService.currentVersion context "posts:list")
      /\ CacheService.currentVersion settled "posts:detail"
         = match affected with
           | [] => N.succ (CacheService.currentVersion context "posts:detail")
           | _ :: _ => CacheService.currentVersion context "posts:detail"
           end
      /\ executionCtx settled = []).
Proof.
  intros Hq. split.
  - intros data tag returned Hrun. rewrite updateTag_outcome in Hrun.
    destruct (TagRepo.findTagById (db context) (upd_id data)) as [existingTag|];
      [|discriminate].
    destruct (nameConflict (db context) data existingTag); [discriminate|].
    unfold committed in Hrun. injection Hrun as _ <-.
    by apply settle_the_queued_invalidation.
  - intros data tag Hfound. rewrite deleteTag_outcome, Hfound. cbn [snd].
    by apply settle_the_queued_invalidation.
Qed.

Lemma tag_mutation_settles_as_one_invalidation_witness :
  let rename := mkUpdateTagInput 1 (mkUpdateTagData (Some "coq")) in
  executionCtx Sample.fresh = []
  /\ calls (Runtime.waitForBackgroundTasks (snd (TagService.updateTag rename Sample.fresh)))
     = [CallDeleteKey "tags:public:list"; CallBumpVersion "posts:list";
        CallGetVersion "posts:detail"; CallDeleteKey "posts:detail:v0:hello";
        CallPurgeCDN ["/"; "/posts"; "/post/hello"]].
Proof.
  intros rename. split; [reflexivity|].
  exact (proj1 (proj1 (tag_mutation_settles_as_one_invalidation Sample.fresh eq_refl)
    rename (Some (mkTag 1 "coq" 10)) (snd (TagService.updateTag rename Sample.fresh))
    eq_refl)).
Defined.

(** ** Reading the public tag list *)

Lemma public_list_schema_accepts (l : list TagWithCount) :
  z_array TagWithCountSchema (array_encode TagWithCount_encode l) = Some l.
Proof.
  unfold z_array, array_encode.
  induction l as [|t l IH]; [done|].
  destruct t as [i n c p]. simpl in *. by rewrite IH.
Qed.

Lemma getPublicTags_miss (context : Context) :
  CacheService.cached context TAGS_CACHE_KEYS_publicList (z_array TagWithCountSchema) = None ->
  TagService.getPublicTags context =
  (Some (publicView (db context)),
   snd (CacheService.set TAGS_CACHE_KEYS_publicList
          (array_encode TagWithCount_encode (publicView (db context))) "7d"
          (issue (CallCompute TAGS_CACHE_KEYS_publicList) context))).
Proof.
  intros Hmiss. unfold TagService.getPublicTags, CacheService.get.
  rewrite Hmiss. cbv zeta. cbn [db issue]. fold (publicView (db context)).
  by rewrite public_list_schema_accepts.
Qed.

(** X8.  When the public list key holds nothing the schema accepts (it is
    absent, or its payload has another shape), [getPublicTags] calls
    [compute] once, returns the tags with their counts of published posts,
    by post count descending, as the store has them now, and leaves that
    list under the public list key with a time to live of seven days; the
    store, the version counters and the queue are untouched. *)
Theorem getPublicTags_fills_the_cache_on_a_miss (context : Context) :
  CacheService.cached context TAGS_CACHE_KEYS_publicList (z_array TagWithCountSchema) = None ->
  let view :=
    TagRepo.getAllTagsWithCount (db context)
      (mkGetTagsInput (Some ByPostCount) (Some Desc) None (Some true)) in
  let context' := snd (TagService.getPublicTags context) in
  fst (TagService.getPublicTags context) = Some view
  /\ kv context' =
       <[TAGS_CACHE_KEYS_publicList := mkEntry (array_encode TagWithCount_encode view) "7d"]>
         (kv context)
  /\ calls context' =
       calls context ++ [CallCompute TAGS_CACHE_KEYS_publicList;
                         CallSet TAGS_CACHE_KEYS_publicList]
  /\ db context' = db context
  /\ versions context' = versions context
  /\ executionCtx context' = executionCtx context.
Proof.
  intros Hmiss. cbv zeta. rewrite (getPublicTags_miss context Hmiss).
  unfold CacheService.set, issue, setKv, publicView. simpl.
  split; [reflexivity|]. split; [reflexivity|].
  split; [by rewrite <- app_assoc|]. by repeat split.
Qed.

Lemma getPublicTags_fills_the_cache_on_a_miss_witness :
  let broken := snd (CacheService.set TAGS_CACHE_KEYS_publicList (JStr "v1") "7d" Sample.fresh) in
  CacheService.cached broken TAGS_CACHE_KEYS_publicList (z_array TagWithCountSchema) = None
  /\ fst (TagService.getPublicTags broken)
     = Some [mkTagWithCount 1 "rocq" 10 1; mkTagWithCount 2 "ocaml" 11 0].
Proof.
  intros broken. split; [reflexivity|].
  exact (proj1 (getPublicTags_fills_the_cache_on_a_miss broken eq_refl)).
Defined.

Lemma getPublicTags_after_invalidation
    (affectedPosts : list PostRef) (d : TagRepo.Db) (context : Context) :
  fst (TagService.getPublicTags
         (Runtime.waitForBackgroundTasks (dispatched affectedPosts d context)))
  = Some (publicView d).
Proof.
  assert (Hmiss : CacheService.cached
                    (Runtime.waitForBackgroundTasks (dispatched affectedPosts d context))
                    TAGS_CACHE_KEYS_publicList (z_array TagWithCountSchema) = None).
  { unfold CacheService.cached. by rewrite dispatched_settles_without_public_list. }
  rewrite (getPublicTags_miss _ Hmiss). cbn [fst].
  by rewrite waitForBackgroundTasks_db.
Qed.

(** X9.  Once a rename has gone through, or an existing tag has been deleted,
    and the background promises have settled, the next read of the public
    tag list is computed from the store as the mutation left it: the new
    name is there, the deleted tag is not, whatever was cached before. *)
Theorem public_list_is_fresh_after_a_tag_mutation (context : Context) :
  (forall (data : UpdateTagInput) (tag : option Tag) (returned : Context),
      TagService.updateTag data context = (ok tag, returned) ->
      fst (TagService.getPublicTags (Runtime.waitForBackgroundTasks returned))
      = Some (publicView (snd (TagRepo.updateTag (db context) (upd_id data) (upd_data data)))))
  /\ (forall (data : DeleteTagInput) (tag : Tag),
      TagRepo.findTagById (db context) (del_id data) = Some tag ->
      fst (TagService.getPublicTags
             (Runtime.waitForBackgroundTasks (snd (TagService.deleteTag data context))))
      = Some (publicView (TagRepo.deleteTag (db context) (del_id data)))).
Proof.
  split.
  - intros data tag returned Hrun. rewrite updateTag_outcome in Hrun.
    destruct (TagRepo.findTagById (db context) (upd_id data)) as [existingTag|];
      [|discriminate].
    destruct (nameConflict (db context) data existingTag); [discriminate|].
    unfold committed in Hrun. injection Hrun as _ <-.
    apply getPublicTags_after_invalidation.
  - intros data tag Hfound. rewrite deleteTag_outcome, Hfound. cbn [snd].
    apply getPublicTags_after_invalidation.
Qed.

Lemma public_list_is_fresh_after_a_tag_mutation_witness :
  let rename := mkUpdateTagInput 1 (mkUpdateTagData (Some "coq")) in
  fst (TagService.getPublicTags Sample.warmed)
    = Some [mkTagWithCount 1 "rocq" 10 1; mkTagWithCount 2 "ocaml" 11 0]
  /\ fst (TagService.getPublicTags
            (Runtime.waitForBackgroundTasks (snd (TagService.updateTag rename Sample.warmed))))
     = Some [mkTagWithCount 1 "coq" 10 1; mkTagWithCount 2 "ocaml" 11 0].
Proof.
  intros rename. split; [reflexivity|].
  exact (proj1 (public_list_is_fresh_after_a_tag_mutation Sample.warmed)
    rename (Some (mkTag 1 "coq" 10)) (snd (TagService.updateTag rename Sample.warmed))
    eq_refl).
Defined.

(** ** Listing tags *)





(** ** The tag manager *)

(** X12.  A click on a column header always selects that column; a column that
    was not selected comes up descending; a second click on the selected
    column flips the direction, so two clicks on it give the first state
    back. *)
Theorem toggleSort_selects_then_flips (field : SortBy) (s : TagManager.SortState) :
  TagManager.sortBy (TagManager.toggleSort field s) = field
  /\ (TagManager.sortBy s <> field ->
      TagManager.toggleSort field s = TagManager.mkSortState field Desc)
  /\ (TagManager.sortBy s = field ->
      TagManager.sortDir (TagManager.toggleSort field s) <> TagManager.sortDir s
      /\ TagManager.toggleSort field (TagManager.toggleSort field s) = s)
  /\ TagManager.toggleSort field
       (TagManager.toggleSort field (TagManager.toggleSort field s))
     = TagManager.toggleSort field s.
Proof.
  destruct s as [by_ dir].
  split; [|split; [|split]].
  - by destruct by_, field.
  - by destruct by_, field.
  - simpl. intros <-. by destruct by_, dir.
  - by destruct by_, field, dir.
Qed.

Lemma toggleSort_selects_then_flips_witness :
  TagManager.sortBy TagManager.initialSort <> ByName
  /\ TagManager.toggleSort ByName TagManager.initialSort
     = TagManager.mkSortState ByName Desc
  /\ TagManager.toggleSort ByPostCount
       (TagManager.toggleSort ByPostCount TagManager.initialSort)
     = TagManager.initialSort.
Proof.
  split; [discriminate|]. split.
  - exact (proj1 (proj2 (toggleSort_selects_then_flips ByName TagManager.initialSort))
      ltac:(discriminate)).
  - exact (proj2 (proj1 (proj2 (proj2
      (toggleSort_selects_then_flips ByPostCount TagManager.initialSort))) eq_refl)).
Defined.



Lemma includes_empty (haystack : string) : TagManager.includes haystack "" = true.
Proof. by destruct haystack. Qed.

(** X14.  With an empty search term the table shows every tag, in the order it
    received them, for any lower-casing that maps the empty string to
    itself. *)
Theorem filteredTags_shows_all_for_an_empty_search
    (toLowerCase : string -> string) (tags : list TagWithCount) :
  toLowerCase "" = "" ->
  TagManager.filteredTags toLowerCase tags "" = tags.
Proof.
  intros Hempty. unfold TagManager.filteredTags. rewrite Hempty.
  induction tags as [|t l IH]; [done|].
  simpl. rewrite includes_empty. by rewrite IH.
Qed.

Lemma filteredTags_shows_all_for_an_empty_search_witness :
  lowerAscii "" = ""
  /\ TagManager.filteredTags lowerAscii (TagService.getTagsWithCount Sample.fresh
       (mkGetTagsInput None None None None)) ""
     = [mkTagWithCount 2 "ocaml" 11 1; mkTagWithCount 1 "rocq" 10 1].
Proof.
  split; [reflexivity|].
  exact (filteredTags_shows_all_for_an_empty_search lowerAscii
    (TagService.getTagsWithCount Sample.fresh (mkGetTagsInput None None None None))
    eq_refl).
Defined.
